(** * nsw-rent-vs-buy: the affordability engine of [map_app.js]

    A shallow embedding of the computational core of the [HousingCostMap]
    class: the mortgage model ([_calculateMortgage]), the per-postcode
    recompute pass ([_updateAllRatios], [_calculateQuartilePayments]), the
    table projection and its default order ([_prepareAndRenderTable]), the
    column sort ([_sortColumn]) and the search filter ([_filterTable]).

    Numbers.  A JavaScript number is an IEEE-754 double.  Throughout this
    development a finite double is idealised as a real number: arithmetic is
    exact, there is no rounding, overflow or signed zero.  The non-finite
    values the engine itself manufactures or can meet in a comparator
    ([Infinity], [-Infinity], [NaN]) are kept as separate constructors where
    the code can observe them.  [Math.pow] is the real power function, which
    is what it computes on a positive base.

    A quotient by zero, which JavaScript answers with an infinity or [NaN]
    (a term of 0 years at a rate of 0), is not modelled either.

    Where rounding decides a property, the mortgage model is given a second
    time on the binary64 numbers themselves (module [Binary64]). *)

From Stdlib Require Import PrimFloat.
From Stdlib Require Import Reals Lra Psatz ZArith Bool List String Ascii.
From Stdlib Require Import Permutation Sorted.
From Stdlib Require OrderedTypeEx.
Import ListNotations.

Open Scope string_scope.
Open Scope R_scope.

(* ================================================================== *)
(** * Part I.  The embedding                                            *)
(* ================================================================== *)

(** ** Comparisons on numbers, as booleans *)

Definition Rle_bool (x y : R) : bool := if Rle_dec x y then true else false.
Definition Rlt_bool (x y : R) : bool := if Rlt_dec x y then true else false.
Definition Req_bool (x y : R) : bool := if Req_dec_T x y then true else false.

(** ** JavaScript values held in object properties *)

(** What a computed property of an area record, or a cell of a table row,
    can hold: nothing yet ([undefined]), [null], a finite number, or the
    literal [Infinity]. *)
Inductive value : Type :=
| Undefined
| Null
| Num (x : R)
| Infinity.

(** The result of arithmetic inside a comparator. *)
Inductive number : Type :=
| Fin (x : R)
| PosInfinity
| NegInfinity
| NaN.

(** [ToNumber]: [undefined] becomes [NaN], [null] becomes [0]. *)
Definition ToNumber (v : value) : number :=
  match v with
  | Undefined => NaN
  | Null => Fin 0
  | Num x => Fin x
  | Infinity => PosInfinity
  end.

(** [v == null]: true of [null] and [undefined] only. *)
Definition loosely_null (v : value) : bool :=
  match v with
  | Undefined | Null => true
  | _ => false
  end.

(** [v ?? d]. *)
Definition nullish_coalesce (v d : value) : value :=
  if loosely_null v then d else v.

(** [a - b] on numbers. *)
Definition number_sub (a b : number) : number :=
  match a, b with
  | NaN, _ | _, NaN => NaN
  | Fin x, Fin y => Fin (x - y)
  | PosInfinity, PosInfinity => NaN
  | NegInfinity, NegInfinity => NaN
  | PosInfinity, _ => PosInfinity
  | NegInfinity, _ => NegInfinity
  | Fin _, PosInfinity => NegInfinity
  | Fin _, NegInfinity => PosInfinity
  end.

(** The sign of a real as a number of the same sign times infinity;
    [0 * Infinity] is [NaN]. *)
Definition scale_infinity (positive_infinity : bool) (x : R) : number :=
  if Req_bool x 0 then NaN
  else if Bool.eqb (Rlt_bool 0 x) positive_infinity then PosInfinity
  else NegInfinity.

(** [a * b] on numbers. *)
Definition number_mul (a b : number) : number :=
  match a, b with
  | NaN, _ | _, NaN => NaN
  | Fin x, Fin y => Fin (x * y)
  | PosInfinity, Fin y => scale_infinity true y
  | NegInfinity, Fin y => scale_infinity false y
  | Fin x, PosInfinity => scale_infinity true x
  | Fin x, NegInfinity => scale_infinity false x
  | PosInfinity, PosInfinity | NegInfinity, NegInfinity => PosInfinity
  | PosInfinity, NegInfinity | NegInfinity, PosInfinity => NegInfinity
  end.

(** [n > 0] on numbers ([NaN > 0] is false). *)
Definition number_gt0 (n : number) : bool :=
  match n with
  | Fin x => Rlt_bool 0 x
  | PosInfinity => true
  | NegInfinity | NaN => false
  end.

(** ** Cells of the parsed CSV

    PapaParse with [dynamicTyping] turns a cell into a number, or [null]
    when it is empty; a missing column reads as [undefined].  Both absent
    forms are [None]. *)
Definition cell := option R.

(** [c || 0]: the number itself when it is truthy, else [0]. *)
Definition or_zero (c : cell) : R :=
  match c with
  | Some x => x
  | None => 0
  end.

(** Truthiness of a number: anything but zero. *)
Definition truthy (x : R) : bool := negb (Req_bool x 0).

(** Truthiness of a cell: present and not zero. *)
Definition cell_truthy (c : cell) : bool :=
  match c with
  | Some x => truthy x
  | None => false
  end.

(** A cell read as a property value. *)
Definition cell_value (c : cell) : value :=
  match c with
  | Some x => Num x
  | None => Null
  end.

(** ** Strings: [toLowerCase], [trim], [includes]

    Strings are sequences of 8-bit characters; case folding and white
    space are the ASCII ones. *)

Definition lower_ascii (c : ascii) : ascii :=
  let n := nat_of_ascii c in
  if ((65 <=? n) && (n <=? 90))%nat then ascii_of_nat (n + 32) else c.

Fixpoint toLowerCase (s : string) : string :=
  match s with
  | EmptyString => EmptyString
  | String c s' => String (lower_ascii c) (toLowerCase s')
  end.

Definition is_white_space (c : ascii) : bool :=
  let n := nat_of_ascii c in
  ((9 <=? n) && (n <=? 13) || (n =? 32))%nat.

Fixpoint trimStart (s : string) : string :=
  match s with
  | EmptyString => EmptyString
  | String c s' => if is_white_space c then trimStart s' else s
  end.

Fixpoint trimEnd (s : string) : string :=
  match s with
  | EmptyString => EmptyString
  | String c s' =>
      let t := trimEnd s' in
      if is_white_space c && String.eqb t EmptyString then EmptyString
      else String c t
  end.

Definition trim (s : string) : string := trimEnd (trimStart s).

(** [s.includes(sub)]. *)
Fixpoint includes (s sub : string) : bool :=
  String.prefix sub s ||
  match s with
  | EmptyString => false
  | String _ s' => includes s' sub
  end.

(** [sub] occurs in [s] as a contiguous run of characters. *)
Definition Substring (sub s : string) : Prop :=
  exists before after : string, s = before ++ sub ++ after.

(** ** [Array.prototype.sort]

    The built-in sort is stable and calls the comparator [comparefn a b]:
    a positive result puts [a] after [b], and a negative result, zero or
    [NaN] leaves [a] before [b].  It is modelled as a stable insertion
    sort, which for a consistent comparator is the order every conforming
    implementation produces. *)
Section ArraySort.

Context {A : Type}.
Variable comparefn : A -> A -> number.

Definition sorts_after (a b : A) : bool := number_gt0 (comparefn a b).

Fixpoint insert (x : A) (l : list A) : list A :=
  match l with
  | [] => [x]
  | y :: l' => if sorts_after x y then y :: insert x l' else x :: y :: l'
  end.

Fixpoint Array_sort (l : list A) : list A :=
  match l with
  | [] => []
  | x :: l' => insert x (Array_sort l')
  end.

End ArraySort.

(** ** The mortgage model *)

(** [Math.pow] and [Math.max]. *)
Definition Math_pow (base exponent : R) : R := Rpower base exponent.
Definition Math_max (x y : R) : R := Rmax x y.

(** The object [{ payment, interest }] that [_calculateMortgage] returns. *)
Record Mortgage : Type := mkMortgage {
  payment : R;
  interest : R
}.

(** The monthly rate [(annualRate / 100) / 12] of [_calculateMortgage]. *)
Definition monthlyRate_of (annualRate : R) : R := (annualRate / 100) / 12.

(** [_calculateMortgage(loanAmount, annualRate, termYears, type)]. *)
Definition _calculateMortgage
    (loanAmount annualRate termYears : R) (type : string) : Mortgage :=
  if Rle_bool loanAmount 0 then
    {| payment := 0; interest := 0 |}
  else
    let numPayments := termYears * 12 in
    if Req_bool annualRate 0 then
      {| payment := loanAmount / numPayments; interest := 0 |}
    else
      let monthlyRate := monthlyRate_of annualRate in
      let monthlyInterest := loanAmount * monthlyRate in
      if String.eqb type "IO" then
        {| payment := monthlyInterest; interest := monthlyInterest |}
      else
        let factor := Math_pow (1 + monthlyRate) numPayments in
        let principalAndInterestPayment :=
          monthlyInterest * factor / (factor - 1) in
        {| payment := principalAndInterestPayment;
           interest := monthlyInterest |}.

(** *** The mortgage model on binary64 numbers

    The same function on the numbers the code computes with.  The
    operators [*], [/], [+], [-] and the comparisons [<=], [===] are those
    of IEEE 754 binary64 (round to nearest, ties to even), which is what
    the primitive floats compute.  [Math.pow] is a parameter: ECMAScript
    leaves its result to the approximation of the implementation. *)
Module Binary64.

Record Mortgage : Type := mkMortgage {
  payment : float;
  interest : float
}.

Section MathPow.

Variable Math_pow : float -> float -> float.

Definition _calculateMortgage
    (loanAmount annualRate termYears : float) (type : string) : Mortgage :=
  if PrimFloat.leb loanAmount 0 then
    {| payment := 0; interest := 0 |}
  else
    let numPayments := PrimFloat.mul termYears 12 in
    if PrimFloat.eqb annualRate 0 then
      {| payment := PrimFloat.div loanAmount numPayments; interest := 0 |}
    else
      let monthlyRate := PrimFloat.div (PrimFloat.div annualRate 100) 12 in
      let monthlyInterest := PrimFloat.mul loanAmount monthlyRate in
      if String.eqb type "IO" then
        {| payment := monthlyInterest; interest := monthlyInterest |}
      else
        let factor := Math_pow (PrimFloat.add 1 monthlyRate) numPayments in
        let principalAndInterestPayment :=
          PrimFloat.div (PrimFloat.mul monthlyInterest factor)
            (PrimFloat.sub factor 1) in
        {| payment := principalAndInterestPayment;
           interest := monthlyInterest |}.

End MathPow.

End Binary64.


(** ** Area records *)

(** One row of the aggregated data set, as stored in [this.housingData]:
    the raw cells of the CSV and the properties the recompute pass writes
    onto the same object.  [Postcode] is the postal code as a string, the
    key of the record, on which the table filter calls string methods. *)
Record AreaRecord : Type := mkAreaRecord {
  Postcode : string;
  yearly_median_sales_price_000s : cell;
  yearly_median_weekly_rent : cell;
  yearly_first_quartile_sales_000s : cell;
  yearly_third_quartile_sales_000s : cell;
  yearly_first_quartile_weekly_rent : cell;
  yearly_third_quartile_weekly_rent : cell;
  calculated_weekly_payment : value;
  calculated_weekly_interest : value;
  rent_vs_payment_ratio : value;
  yearly_first_quartile_weekly_payment : value;
  yearly_third_quartile_weekly_payment : value
}.

(** The raw part of a record: everything the pass only reads. *)
Definition same_raw (d e : AreaRecord) : Prop :=
  Postcode d = Postcode e /\
  yearly_median_sales_price_000s d = yearly_median_sales_price_000s e /\
  yearly_median_weekly_rent d = yearly_median_weekly_rent e /\
  yearly_first_quartile_sales_000s d = yearly_first_quartile_sales_000s e /\
  yearly_third_quartile_sales_000s d = yearly_third_quartile_sales_000s e /\
  yearly_first_quartile_weekly_rent d = yearly_first_quartile_weekly_rent e /\
  yearly_third_quartile_weekly_rent d = yearly_third_quartile_weekly_rent e.

(** Assignments [data.<property> = v]. *)
Definition set_calculated_weekly_payment (v : value) (d : AreaRecord) :=
  mkAreaRecord (Postcode d) (yearly_median_sales_price_000s d)
    (yearly_median_weekly_rent d) (yearly_first_quartile_sales_000s d)
    (yearly_third_quartile_sales_000s d) (yearly_first_quartile_weekly_rent d)
    (yearly_third_quartile_weekly_rent d)
    v (calculated_weekly_interest d) (rent_vs_payment_ratio d)
    (yearly_first_quartile_weekly_payment d)
    (yearly_third_quartile_weekly_payment d).

Definition set_calculated_weekly_interest (v : value) (d : AreaRecord) :=
  mkAreaRecord (Postcode d) (yearly_median_sales_price_000s d)
    (yearly_median_weekly_rent d) (yearly_first_quartile_sales_000s d)
    (yearly_third_quartile_sales_000s d) (yearly_first_quartile_weekly_rent d)
    (yearly_third_quartile_weekly_rent d)
    (calculated_weekly_payment d) v (rent_vs_payment_ratio d)
    (yearly_first_quartile_weekly_payment d)
    (yearly_third_quartile_weekly_payment d).

Definition set_rent_vs_payment_ratio (v : value) (d : AreaRecord) :=
  mkAreaRecord (Postcode d) (yearly_median_sales_price_000s d)
    (yearly_median_weekly_rent d) (yearly_first_quartile_sales_000s d)
    (yearly_third_quartile_sales_000s d) (yearly_first_quartile_weekly_rent d)
    (yearly_third_quartile_weekly_rent d)
    (calculated_weekly_payment d) (calculated_weekly_interest d) v
    (yearly_first_quartile_weekly_payment d)
    (yearly_third_quartile_weekly_payment d).

Definition set_yearly_first_quartile_weekly_payment
    (v : value) (d : AreaRecord) :=
  mkAreaRecord (Postcode d) (yearly_median_sales_price_000s d)
    (yearly_median_weekly_rent d) (yearly_first_quartile_sales_000s d)
    (yearly_third_quartile_sales_000s d) (yearly_first_quartile_weekly_rent d)
    (yearly_third_quartile_weekly_rent d)
    (calculated_weekly_payment d) (calculated_weekly_interest d)
    (rent_vs_payment_ratio d) v
    (yearly_third_quartile_weekly_payment d).

Definition set_yearly_third_quartile_weekly_payment
    (v : value) (d : AreaRecord) :=
  mkAreaRecord (Postcode d) (yearly_median_sales_price_000s d)
    (yearly_median_weekly_rent d) (yearly_first_quartile_sales_000s d)
    (yearly_third_quartile_sales_000s d) (yearly_first_quartile_weekly_rent d)
    (yearly_third_quartile_weekly_rent d)
    (calculated_weekly_payment d) (calculated_weekly_interest d)
    (rent_vs_payment_ratio d)
    (yearly_first_quartile_weekly_payment d) v.

(** ** The recompute pass *)

(** The four numeric inputs of the control panel, as [getFloat] reads them
    at the start of [_updateAllRatios]; each holds a finite number (an
    empty box, which [parseFloat] reads as [NaN], is outside the model). *)
Record Controls : Type := mkControls {
  interestRate : R;
  loanTerm : R;
  depositPercent : R;
  depositAmount : R
}.

(** [_calculateQuartilePayments(data, deposit, rate, term, type)]. *)
Definition _calculateQuartilePayments
    (data : AreaRecord) (deposit rate term : R) (type : string)
  : AreaRecord :=
  let q1Sales := or_zero (yearly_first_quartile_sales_000s data) * 1000 in
  let data :=
    if truthy q1Sales then
      let q1Loan := Math_max 0 (q1Sales - deposit) in
      let q1Mortgage := _calculateMortgage q1Loan rate term type in
      set_yearly_first_quartile_weekly_payment
        (Num (payment q1Mortgage * 12 / 52)) data
    else
      set_yearly_first_quartile_weekly_payment Null data in
  let q3Sales := or_zero (yearly_third_quartile_sales_000s data) * 1000 in
  if truthy q3Sales then
    let data := set_yearly_third_quartile_weekly_payment Null data in
    let q3Loan := Math_max 0 (q3Sales - deposit) in
    let q3Mortgage := _calculateMortgage q3Loan rate term type in
    set_yearly_third_quartile_weekly_payment
      (Num (payment q3Mortgage * 12 / 52)) data
  else
    data.

(** The body of the [for (const postcode in this.housingData)] loop of
    [_updateAllRatios], for one record.  The ratio branch reads
    [data.calculated_weekly_payment] back right after assigning it; the
    value read is the one bound to [weeklyPayment] here. *)
Definition _updateAllRatios_area
    (inputs : Controls) (depositType mortgageType : string)
    (data : AreaRecord) : AreaRecord :=
  let salesPrice := or_zero (yearly_median_sales_price_000s data) * 1000 in
  let rent := yearly_median_weekly_rent data in
  if truthy salesPrice then
    let actualDeposit :=
      if String.eqb depositType "percent"
      then salesPrice * (depositPercent inputs / 100)
      else depositAmount inputs in
    let loanAmount := Math_max 0 (salesPrice - actualDeposit) in
    let mortgage :=
      _calculateMortgage loanAmount (interestRate inputs) (loanTerm inputs)
        mortgageType in
    let weeklyPayment := payment mortgage * 12 / 52 in
    let data := set_calculated_weekly_payment (Num weeklyPayment) data in
    let data :=
      set_calculated_weekly_interest (Num (interest mortgage * 12 / 52)) data in
    let data :=
      if negb (cell_truthy rent) then
        set_rent_vs_payment_ratio Null data
      else if Rlt_bool 0 weeklyPayment then
        set_rent_vs_payment_ratio (Num (or_zero rent / weeklyPayment)) data
      else
        set_rent_vs_payment_ratio Infinity data in
    _calculateQuartilePayments data actualDeposit (interestRate inputs)
      (loanTerm inputs) mortgageType
  else
    data.

(** ** Table rows *)

(** An element of [this.sortedDataList]. *)
Record Row : Type := mkRow {
  postcode : string;
  suburb : string;
  ratio : value;
  rent : value;
  mortgage_payment : value
}.

(** The classes [sorted-asc] and [sorted-desc] of the table headers, by
    the header's [data-sort] key. *)
Record Headers : Type := mkHeaders {
  sorted_asc : string -> bool;
  sorted_desc : string -> bool
}.

(** The state of a [HousingCostMap] the engine reads and writes.
    [housingData] lists the records of the object [this.housingData] in its
    enumeration order, the order of both [for ... in] and [Object.values];
    [suburbLookup] is the object [this.suburbLookup] as a partial function
    of the postal code. *)
Record HousingCostMap : Type := mkHousingCostMap {
  housingData : list AreaRecord;
  suburbLookup : string -> option string;
  sortedDataList : list Row;
  depositType : string;
  mortgageType : string;
  headers : Headers
}.

Definition set_housingData (h : list AreaRecord) (this : HousingCostMap) :=
  mkHousingCostMap h (suburbLookup this) (sortedDataList this)
    (depositType this) (mortgageType this) (headers this).

Definition set_sortedDataList (l : list Row) (this : HousingCostMap) :=
  mkHousingCostMap (housingData this) (suburbLookup this) l
    (depositType this) (mortgageType this) (headers this).

Definition set_headers (h : Headers) (this : HousingCostMap) :=
  mkHousingCostMap (housingData this) (suburbLookup this) (sortedDataList this)
    (depositType this) (mortgageType this) h.

(** [_updateAllRatios()]: every record of [this.housingData] is updated in
    place, in enumeration order. *)
Definition _updateAllRatios (inputs : Controls) (this : HousingCostMap)
  : HousingCostMap :=
  set_housingData
    (map (_updateAllRatios_area inputs (depositType this) (mortgageType this))
       (housingData this))
    this.

(** [this.suburbLookup[p]] as a truthy string, if there is one. *)
Definition lookup_suburbs (this : HousingCostMap) (p : string)
  : option string :=
  match suburbLookup this p with
  | Some s => if String.eqb s EmptyString then None else Some s
  | None => None
  end.

(** The predicate of the [.filter] of [_prepareAndRenderTable]. *)
Definition has_table_row (this : HousingCostMap) (d : AreaRecord) : bool :=
  match lookup_suburbs this (Postcode d) with
  | Some _ => true
  | None =>
      cell_truthy (yearly_median_weekly_rent d) ||
      cell_truthy (yearly_median_sales_price_000s d)
  end.

(** The function of the [.map] of [_prepareAndRenderTable]. *)
Definition table_row (this : HousingCostMap) (d : AreaRecord) : Row :=
  {| postcode := Postcode d;
     suburb :=
       match lookup_suburbs this (Postcode d) with
       | Some s => s
       | None => "Postcode " ++ Postcode d
       end;
     ratio := rent_vs_payment_ratio d;
     rent := cell_value (yearly_median_weekly_rent d);
     mortgage_payment := calculated_weekly_payment d |}.

(** The sort key [x.ratio ?? -1]. *)
Definition ratio_key (x : Row) : number :=
  ToNumber (nullish_coalesce (ratio x) (Num (-1))).

(** The comparator [(a, b) => (b.ratio ?? -1) - (a.ratio ?? -1)]. *)
Definition by_ratio_descending (a b : Row) : number :=
  number_sub (ratio_key b) (ratio_key a).

(** [_prepareAndRenderTable()]: the new state and the rows handed to
    [_renderTable]. *)
Definition _prepareAndRenderTable (this : HousingCostMap)
  : HousingCostMap * list Row :=
  let rows :=
    map (table_row this) (filter (has_table_row this) (housingData this)) in
  let sorted := Array_sort by_ratio_descending rows in
  let this := set_sortedDataList sorted this in
  let this :=
    set_headers
      {| sorted_asc := sorted_asc (headers this);
         sorted_desc := fun k =>
           if String.eqb k "ratio" then true else sorted_desc (headers this) k |}
      this in
  (this, sorted).

(** [_filterTable(query)]: the state, and the rows handed to
    [_renderTable]. *)
Definition filter_matches (lowerQuery : string) (item : Row) : bool :=
  includes (postcode item) lowerQuery ||
  includes (toLowerCase (suburb item)) lowerQuery.

Definition _filterTable (query : string) (this : HousingCostMap)
  : HousingCostMap * list Row :=
  let lowerQuery := trim (toLowerCase query) in
  let filteredData := filter (filter_matches lowerQuery) (sortedDataList this) in
  (this, filteredData).

(** ** The column sort *)

(** What [item[key]] evaluates to. *)
Inductive property : Type :=
| PString (s : string)
| PValue (v : value).

Definition get_property (key : string) (item : Row) : property :=
  if String.eqb key "postcode" then PString (postcode item)
  else if String.eqb key "suburb" then PString (suburb item)
  else if String.eqb key "ratio" then PValue (ratio item)
  else if String.eqb key "rent" then PValue (rent item)
  else if String.eqb key "mortgage_payment" then PValue (mortgage_payment item)
  else PValue Undefined.

(** [val == null]. *)
Definition property_null (p : property) : bool :=
  match p with
  | PString _ => false
  | PValue v => loosely_null v
  end.

Section SortColumn.

(** Two built-ins the comparator relies on: [String.prototype.localeCompare]
    and the conversion of a string to a number that [valA - valB] applies
    to string operands. *)
Variable localeCompare : string -> string -> R.
Variable StringToNumber : string -> number.

Definition property_number (p : property) : number :=
  match p with
  | PString s => StringToNumber s
  | PValue v => ToNumber v
  end.

(** The comparator of [_sortColumn]; when [key] is ['suburb'], [valA] and
    [valB] are the two [suburb] strings. *)
Definition by_column (key : string) (direction : R) (a b : Row) : number :=
  let valA := get_property key a in
  let valB := get_property key b in
  if property_null valA then Fin 1
  else if property_null valB then Fin (-1)
  else if String.eqb key "suburb" then
    number_mul (Fin (localeCompare (suburb a) (suburb b))) (Fin direction)
  else
    number_mul (number_sub (property_number valA) (property_number valB))
      (Fin direction).

(** [_sortColumn(key)]: the new state and the rows handed to
    [_renderTable]. *)
Definition _sortColumn (key : string) (this : HousingCostMap)
  : HousingCostMap * list Row :=
  let isAsc := sorted_asc (headers this) key in
  let direction := if isAsc then -1 else 1 in
  let this :=
    set_headers
      {| sorted_asc := fun k => if String.eqb k key then negb isAsc else false;
         sorted_desc := fun k => if String.eqb k key then isAsc else false |}
      this in
  let sorted := Array_sort (by_column key direction) (sortedDataList this) in
  let this := set_sortedDataList sorted this in
  (this, sorted).

End SortColumn.


(** ** Notions used to state the properties of the recompute pass *)

(** The deposit [actualDeposit] of [_updateAllRatios] for a record: resolved
    once, from the median sale price. *)
Definition actualDeposit_of
    (inputs : Controls) (deposit_type : string) (data : AreaRecord) : R :=
  let salesPrice := or_zero (yearly_median_sales_price_000s data) * 1000 in
  if String.eqb deposit_type "percent"
  then salesPrice * (depositPercent inputs / 100)
  else depositAmount inputs.

(** The weekly payment on a sale price (in thousands) after a given
    deposit: [Math.max(0, price - deposit)] through the mortgage model,
    times 12/52. *)
Definition weekly_payment_on
    (inputs : Controls) (mortgage_type : string) (thousands deposit : R) : R :=
  payment
    (_calculateMortgage (Math_max 0 (thousands * 1000 - deposit))
       (interestRate inputs) (loanTerm inputs) mortgage_type) * 12 / 52.

Definition weekly_interest_on
    (inputs : Controls) (mortgage_type : string) (thousands deposit : R) : R :=
  interest
    (_calculateMortgage (Math_max 0 (thousands * 1000 - deposit))
       (interestRate inputs) (loanTerm inputs) mortgage_type) * 12 / 52.

(** The five computed properties of a record. *)
Definition computed_fields (d : AreaRecord)
  : value * value * value * value * value :=
  (calculated_weekly_payment d, calculated_weekly_interest d,
   rent_vs_payment_ratio d, yearly_first_quartile_weekly_payment d,
   yearly_third_quartile_weekly_payment d).

(** Steps 1 to 4 of the specification's per-area algorithm applied to one
    sale price (a cell, in thousands), in the specification's words: the
    deposit is resolved from that sale price (its [depositPercent] share in
    percent mode, the flat [depositAmount] otherwise), the loan amount is
    [max(0, salePrice - deposit)], and the weekly payment is the model's
    monthly payment times 12/52; there is no payment when the sale price is
    absent or zero. *)
Definition spec_weekly_payment
    (inputs : Controls) (deposit_type mortgage_type : string)
    (salePrice000s : cell) : option R :=
  if cell_truthy salePrice000s then
    let salePrice := or_zero salePrice000s * 1000 in
    let deposit :=
      if String.eqb deposit_type "percent"
      then salePrice * (depositPercent inputs / 100)
      else depositAmount inputs in
    let loanAmount := Math_max 0 (salePrice - deposit) in
    Some (payment
            (_calculateMortgage loanAmount (interestRate inputs)
               (loanTerm inputs) mortgage_type) * 12 / 52)
  else None.

(** A property holds what the specification prescribes: the prescribed
    number, or no number ([null] or [undefined]) when none is prescribed. *)
Definition holds (v : value) (prescribed : option R) : Prop :=
  match prescribed with
  | Some x => v = Num x
  | None => loosely_null v = true
  end.

(** Agreement with a figure quoted to the cent. *)
Definition approximately (x quoted : R) : Prop := Rabs (x - quoted) <= 0.005.

(** *** Records and control panels used as examples *)

Definition fresh_area (p : string) (median rent q1 q3 : cell) : AreaRecord :=
  {| Postcode := p;
     yearly_median_sales_price_000s := median;
     yearly_median_weekly_rent := rent;
     yearly_first_quartile_sales_000s := q1;
     yearly_third_quartile_sales_000s := q3;
     yearly_first_quartile_weekly_rent := None;
     yearly_third_quartile_weekly_rent := None;
     calculated_weekly_payment := Undefined;
     calculated_weekly_interest := Undefined;
     rent_vs_payment_ratio := Undefined;
     yearly_first_quartile_weekly_payment := Undefined;
     yearly_third_quartile_weekly_payment := Undefined |}.

(** A median price of 500 (thousands) with a flat deposit of 0: a loan of
    500000. *)
Definition example_area : AreaRecord :=
  fresh_area "2000" (Some 500) (Some 700) None None.

Definition example_inputs : Controls :=
  {| interestRate := 6; loanTerm := 30; depositPercent := 0; depositAmount := 0 |}.

(** A median price of 800 with quartiles 600 and 1000, a rent of 500, and
    a 20 percent deposit at 5 percent over 25 years. *)
Definition quartile_area : AreaRecord :=
  fresh_area "2010" (Some 800) (Some 500) (Some 600) (Some 1000).

Definition quartile_inputs : Controls :=
  {| interestRate := 5; loanTerm := 25; depositPercent := 20; depositAmount := 0 |}.

(** A record with rent but no sale price. *)
Definition unsold_area : AreaRecord :=
  fresh_area "2020" (Some 0) (Some 500) None None.

(** A map holding the example records, with one suburb name known. *)
Definition example_map : HousingCostMap :=
  {| housingData := [example_area; quartile_area; unsold_area];
     suburbLookup := fun p => if String.eqb p "2000" then Some "Sydney" else None;
     sortedDataList := [];
     depositType := "percent";
     mortgageType := "PI";
     headers := {| sorted_asc := fun _ => false; sorted_desc := fun _ => false |} |}.

(** *** The records the program can hold *)

(** A record as [_loadData] stores it in [this.housingData]: the cells of
    one row of the aggregated CSV, and none of the computed properties,
    for which the CSV has no column. *)
Definition as_loaded (d : AreaRecord) : AreaRecord :=
  {| Postcode := Postcode d;
     yearly_median_sales_price_000s := yearly_median_sales_price_000s d;
     yearly_median_weekly_rent := yearly_median_weekly_rent d;
     yearly_first_quartile_sales_000s := yearly_first_quartile_sales_000s d;
     yearly_third_quartile_sales_000s := yearly_third_quartile_sales_000s d;
     yearly_first_quartile_weekly_rent := yearly_first_quartile_weekly_rent d;
     yearly_third_quartile_weekly_rent := yearly_third_quartile_weekly_rent d;
     calculated_weekly_payment := Undefined;
     calculated_weekly_interest := Undefined;
     rent_vs_payment_ratio := Undefined;
     yearly_first_quartile_weekly_payment := Undefined;
     yearly_third_quartile_weekly_payment := Undefined |}.

(** The records [this.housingData] can hold while the program runs.
    [_updateAllRatios] (with [_calculateQuartilePayments]) is the only
    code that assigns to a property of a record, so a record is either as
    loaded or what earlier passes, each under the configuration of its
    time, have made of a record that the program could hold. *)
Inductive reachable : AreaRecord -> Prop :=
| reachable_loaded (d : AreaRecord) : reachable (as_loaded d)
| reachable_pass (inputs : Controls) (deposit_type mortgage_type : string)
    (d : AreaRecord) :
    reachable d ->
    reachable (_updateAllRatios_area inputs deposit_type mortgage_type d).

(** [quartile_area] after a pass under another configuration: a flat
    deposit of 0, interest only, at 6 percent over 30 years. *)
Definition quartile_area_after_a_pass : AreaRecord :=
  _updateAllRatios_area example_inputs "amount" "IO" quartile_area.

(** *** The statement of C1 as the specification words it *)

(** C1 as stated: after the pass, each quartile payment of the record is
    what steps 1 to 4 prescribe for its quartile sale price. *)
Definition quartile_payments_follow_steps_1_to_4
    (inputs : Controls) (deposit_type mortgage_type : string)
    (data : AreaRecord) : Prop :=
  let data' := _updateAllRatios_area inputs deposit_type mortgage_type data in
  holds (yearly_first_quartile_weekly_payment data')
    (spec_weekly_payment inputs deposit_type mortgage_type
       (yearly_first_quartile_sales_000s data)) /\
  holds (yearly_third_quartile_weekly_payment data')
    (spec_weekly_payment inputs deposit_type mortgage_type
       (yearly_third_quartile_sales_000s data)).

(** ** Notions used to state the properties of the table *)

(** [a] stands somewhere before [b] in [l]. *)
Definition precedes {A : Type} (l : list A) (a b : A) : Prop :=
  exists l1 l2 l3 : list A, l = (l1 ++ a :: l2 ++ b :: l3)%list.

(** A value that is a number: finite or [Infinity]. *)
Definition defined (v : value) : Prop := loosely_null v = false.

(** A ratio that is defined and not negative. *)
Definition defined_non_negative (v : value) : Prop :=
  match v with
  | Num x => 0 <= x
  | Infinity => True
  | Undefined | Null => False
  end.

(** [v >= w] between two defined values. *)
Definition value_ge (v w : value) : Prop :=
  match v, w with
  | Infinity, (Num _ | Infinity) => True
  | Num x, Num y => y <= x
  | _, _ => False
  end.

(** The value of the sort column is [null] or [undefined]. *)
Definition null_in (key : string) (item : Row) : bool :=
  property_null (get_property key item).

(** The value of a numeric column; the two string columns have none. *)
Definition column_value (key : string) (item : Row) : value :=
  match get_property key item with
  | PValue v => v
  | PString _ => Undefined
  end.

(** The order a direction asks for between an earlier value [v] and a
    later value [w]: ascending for a positive direction, descending
    otherwise. *)
Definition in_direction (direction : R) (v w : value) : Prop :=
  if Rlt_bool 0 direction then value_ge w v else value_ge v w.

(** Three rows: one without a ratio, one with ratio 0.8, one with
    [Infinity]. *)
Definition row_without_ratio : Row :=
  {| postcode := "2020"; suburb := "Postcode 2020"; ratio := Null;
     rent := Num 500; mortgage_payment := Undefined |}.

Definition row_with_ratio : Row :=
  {| postcode := "2010"; suburb := "Surry Hills"; ratio := Num 0.8;
     rent := Num 500; mortgage_payment := Num 625 |}.

Definition row_with_infinite_ratio : Row :=
  {| postcode := "2000"; suburb := "Sydney"; ratio := Infinity;
     rent := Num 700; mortgage_payment := Num 0 |}.

(** *** The column sort as the specification words it *)

(** The comparison C8 prescribes between two rows whose values in the
    column are defined: [localeCompare] when the column holds strings, the
    numeric difference when it holds numbers, times the direction. *)
Definition spec_by_column
    (localeCompare : string -> string -> R)
    (key : string) (direction : R) (a b : Row) : number :=
  match get_property key a, get_property key b with
  | PString s, PString t => number_mul (Fin (localeCompare s t)) (Fin direction)
  | PValue v, PValue w =>
      number_mul (number_sub (ToNumber v) (ToNumber w)) (Fin direction)
  | _, _ => NaN
  end.

(** C8 as stated, for the part on defined values: in either direction the
    comparator of [_sortColumn] puts a row after another exactly when the
    prescribed comparison does. *)
Definition columns_compared_as_specified
    (localeCompare : string -> string -> R)
    (StringToNumber : string -> number) : Prop :=
  forall (key : string) (direction : R) (a b : Row),
    direction = 1 \/ direction = -1 ->
    null_in key a = false -> null_in key b = false ->
    sorts_after (by_column localeCompare StringToNumber key direction) a b
    = sorts_after (spec_by_column localeCompare key direction) a b.

(** What [Array.prototype.sort] asks of a comparator, for [localeCompare]:
    swapping the operands swaps the sign, and the order is transitive. *)
Definition consistent_comparator (localeCompare : string -> string -> R)
  : Prop :=
  (forall s t : string, 0 < localeCompare s t <-> localeCompare t s < 0) /\
  (forall s t u : string,
      localeCompare s t <= 0 -> localeCompare t u <= 0 ->
      localeCompare s u <= 0).

(** The order of strings by the codes of their characters: one comparator
    of that kind. *)
Definition compare_code_units (s t : string) : R :=
  match String.compare s t with
  | Lt => -1
  | Eq => 0
  | Gt => 1
  end.

(** The postal code of the row converts to a finite number. *)
Definition numeric_postcode (StringToNumber : string -> number) (item : Row)
  : Prop :=
  exists n : R, StringToNumber (postcode item) = Fin n.

(** Two rows with the postal codes 9 and 10, and a table that lists 10
    first. *)
Definition row_postcode_9 : Row :=
  {| postcode := "9"; suburb := "Postcode 9"; ratio := Null;
     rent := Num 400; mortgage_payment := Undefined |}.

Definition row_postcode_10 : Row :=
  {| postcode := "10"; suburb := "Postcode 10"; ratio := Null;
     rent := Num 450; mortgage_payment := Undefined |}.

Definition table_10_then_9 : HousingCostMap :=
  {| housingData := [];
     suburbLookup := fun _ => None;
     sortedDataList := [row_postcode_10; row_postcode_9];
     depositType := "percent";
     mortgageType := "PI";
     headers := {| sorted_asc := fun _ => false; sorted_desc := fun _ => false |} |}.

(** *** The search filter *)

(** [s] contains [query] when case is ignored: the wording of C9. *)
Definition contains_ignoring_case (s query : string) : Prop :=
  Substring (toLowerCase query) (toLowerCase s).

(** C9 as stated: the rendered rows are the stored rows whose postal code
    or label contains the query, ignoring case. *)
Definition filter_selects_rows_containing
    (query : string) (this : HousingCostMap) : Prop :=
  forall item : Row,
    In item (snd (_filterTable query this)) <->
    In item (sortedDataList this) /\
    (contains_ignoring_case (postcode item) query \/
     contains_ignoring_case (suburb item) query).

(** A table of one row, Sydney 2000. *)
Definition sydney_table : HousingCostMap :=
  {| housingData := [];
     suburbLookup := fun _ => None;
     sortedDataList := [row_with_infinite_ratio];
     depositType := "percent";
     mortgageType := "PI";
     headers := {| sorted_asc := fun _ => false; sorted_desc := fun _ => false |} |}.

(** ** The map colours *)

(** [ratio === null], [isNaN(ratio)], [ratio === Infinity] and
    [ratio >= c]. *)
Definition strictly_null (v : value) : bool :=
  match v with
  | Null => true
  | _ => false
  end.

Definition isNaN (v : value) : bool :=
  match ToNumber v with
  | NaN => true
  | _ => false
  end.

Definition strictly_Infinity (v : value) : bool :=
  match v with
  | Infinity => true
  | _ => false
  end.

Definition number_ge (n : number) (c : R) : bool :=
  match n with
  | Fin x => Rle_bool c x
  | PosInfinity => true
  | NegInfinity | NaN => false
  end.

(** [_getColor(ratio)]. *)
Definition _getColor (ratio : value) : string :=
  if strictly_null ratio || isNaN ratio then "#ccc"
  else if number_ge (ToNumber ratio) 1.25 || strictly_Infinity ratio
       then "#ef4444"
  else if number_ge (ToNumber ratio) 1.05 then "#f97316"
  else if number_ge (ToNumber ratio) 0.95 then "#fbbf24"
  else if number_ge (ToNumber ratio) 0.75 then "#22c55e"
  else "#0f766e".

(** The array [grades] of [_addLegend]. *)
Module Legend.

Record Grade : Type := mkGrade {
  limit : value;
  color : string;
  label : string
}.

Definition grades : list Grade :=
  [ {| limit := Num 0.75; color := _getColor (Num 0.74);
       label := "&le; 0.75 (Rent Much Cheaper)" |};
    {| limit := Num 0.95; color := _getColor (Num 0.85);
       label := "0.75 &ndash; 0.95 (Rent Cheaper)" |};
    {| limit := Num 1.05; color := _getColor (Num 1.0);
       label := "0.95 &ndash; 1.05 (Equal Cost)" |};
    {| limit := Num 1.25; color := _getColor (Num 1.15);
       label := "1.05 &ndash; 1.25 (Mortgage Cheaper)" |};
    {| limit := Infinity; color := _getColor (Num 1.5);
       label := "&ge; 1.25 (Mortgage Much Cheaper)" |} ].

End Legend.

(** A finite ratio lies below the limit of a grade. *)
Definition below_limit (r : R) (g : Legend.Grade) : bool :=
  match Legend.limit g with
  | Num c => Rlt_bool r c
  | Infinity => true
  | Undefined | Null => false
  end.

(** A Leaflet path style: an object with some of these properties. *)
Record Style : Type := mkStyle {
  weight : option R;
  opacity : option R;
  color : option string;
  fillOpacity : option R;
  fillColor : option string
}.

(** [this.defaultStyle], set once by the constructor. *)
Definition defaultStyle : Style :=
  {| weight := Some 1; opacity := Some 1; color := Some "white";
     fillOpacity := Some 0.7; fillColor := None |}.

(** [this.housingData[postcode]]: the record stored under a postal code.
    Each record of [housingData] is stored under its own [Postcode] and an
    object holds one record per key. *)
Definition housingData_get (this : HousingCostMap) (postcode : string)
  : option AreaRecord :=
  find (fun d => String.eqb (Postcode d) postcode) (housingData this).

(** [_styleFeature(feature)], for a feature whose
    [String(feature.properties.POA_CODE21)] is [postcode]. *)
Definition _styleFeature (this : HousingCostMap) (postcode : string) : Style :=
  let data := housingData_get this postcode in
  let ratio :=
    match data with
    | Some d => rent_vs_payment_ratio d
    | None => Null
    end in
  {| weight := weight defaultStyle;
     opacity := opacity defaultStyle;
     color := color defaultStyle;
     fillOpacity := fillOpacity defaultStyle;
     fillColor := Some (_getColor ratio) |}.

(** ** Updates of the whole view *)

Definition set_mortgageType (type : string) (this : HousingCostMap) :=
  mkHousingCostMap (housingData this) (suburbLookup this) (sortedDataList this)
    (depositType this) type (headers this).

Definition set_depositType (type : string) (this : HousingCostMap) :=
  mkHousingCostMap (housingData this) (suburbLookup this) (sortedDataList this)
    type (mortgageType this) (headers this).

(** [updateMapAndTable()]: the recompute pass, then the table.  The calls
    that restyle the map layer and refresh an open popup read the state
    and write none of it. *)
Definition updateMapAndTable (inputs : Controls) (this : HousingCostMap)
  : HousingCostMap * list Row :=
  let this := _updateAllRatios inputs this in
  _prepareAndRenderTable this.

(** [_handleMortgageTypeChange(type)] and [_handleDepositTypeChange(type)],
    with the control panel as it stands when the event fires. *)
Definition _handleMortgageTypeChange
    (inputs : Controls) (type : string) (this : HousingCostMap)
  : HousingCostMap * list Row :=
  let this := set_mortgageType type this in
  updateMapAndTable inputs this.

Definition _handleDepositTypeChange
    (inputs : Controls) (type : string) (this : HousingCostMap)
  : HousingCostMap * list Row :=
  let this := set_depositType type this in
  updateMapAndTable inputs this.


(** What a table row shows of a record: its postal code, label and rent. *)
Definition listing (row : Row) : string * string * value :=
  (postcode row, suburb row, rent row).


(** The guard of [_createBoxPlot]: the plot is drawn unless one of [q1],
    [median] and [q3] is [null] or [undefined]. *)
Definition box_plot_is_drawn (q1 median q3 : value) : bool :=
  negb (loosely_null q1 || loosely_null median || loosely_null q3).

(** The [q1], [median] and [q3] that [_createPopupContent] passes to
    [_createBoxPlot] for the mortgage plot and for the rent plot. *)
Definition mortgage_box_plot_is_drawn (data : AreaRecord) : bool :=
  box_plot_is_drawn (yearly_first_quartile_weekly_payment data)
    (calculated_weekly_payment data)
    (yearly_third_quartile_weekly_payment data).

Definition rent_box_plot_is_drawn (data : AreaRecord) : bool :=
  box_plot_is_drawn (cell_value (yearly_first_quartile_weekly_rent data))
    (cell_value (yearly_median_weekly_rent data))
    (cell_value (yearly_third_quartile_weekly_rent data)).

(** Two rows have the same default sort key: the comparator puts neither
    after the other. *)
Definition same_ratio_key (a b : Row) : bool :=
  negb (sorts_after by_ratio_descending a b) &&
  negb (sorts_after by_ratio_descending b a).
(* ================================================================== *)
(** * Part II.  Properties                                              *)
(* ================================================================== *)

(** ** Boolean comparisons *)

Lemma Rle_bool_true (x y : R) : x <= y -> Rle_bool x y = true.
Proof. intros H. unfold Rle_bool. destruct (Rle_dec x y); [reflexivity | lra]. Qed.

Lemma Rle_bool_false (x y : R) : y < x -> Rle_bool x y = false.
Proof. intros H. unfold Rle_bool. destruct (Rle_dec x y); [lra | reflexivity]. Qed.

Lemma Rlt_bool_true (x y : R) : x < y -> Rlt_bool x y = true.
Proof. intros H. unfold Rlt_bool. destruct (Rlt_dec x y); [reflexivity | lra]. Qed.

Lemma Rlt_bool_false (x y : R) : y <= x -> Rlt_bool x y = false.
Proof. intros H. unfold Rlt_bool. destruct (Rlt_dec x y); [lra | reflexivity]. Qed.

Lemma Req_bool_true (x y : R) : x = y -> Req_bool x y = true.
Proof. intros H. unfold Req_bool. destruct (Req_dec_T x y); [reflexivity | lra]. Qed.

Lemma Req_bool_false (x y : R) : x <> y -> Req_bool x y = false.
Proof.
  intros H. unfold Req_bool. destruct (Req_dec_T x y); [contradiction | reflexivity].
Qed.

Lemma Rlt_bool_spec (x y : R) : Rlt_bool x y = true <-> x < y.
Proof.
  unfold Rlt_bool. destruct (Rlt_dec x y); split; intros; try lra; congruence.
Qed.

Lemma Rlt_bool_nspec (x y : R) : Rlt_bool x y = false <-> y <= x.
Proof.
  unfold Rlt_bool. destruct (Rlt_dec x y); split; intros; try lra; congruence.
Qed.

Lemma truthy_true (x : R) : x <> 0 -> truthy x = true.
Proof. intros H. unfold truthy. now rewrite Req_bool_false. Qed.

Lemma truthy_false (x : R) : x = 0 -> truthy x = false.
Proof. intros H. unfold truthy. now rewrite Req_bool_true. Qed.

Lemma truthy_spec (x : R) : truthy x = true <-> x <> 0.
Proof.
  unfold truthy, Req_bool. destruct (Req_dec_T x 0); simpl; split; intros;
    try congruence; try contradiction.
Qed.

(** [(c || 0) * 1000] is truthy exactly when the cell is. *)
Lemma truthy_thousands (c : cell) :
  truthy (or_zero c * 1000) = cell_truthy c.
Proof.
  destruct c as [x|]; simpl.
  - unfold truthy, Req_bool.
    destruct (Req_dec_T (x * 1000) 0), (Req_dec_T x 0); simpl;
      try reflexivity; exfalso; lra.
  - apply truthy_false. lra.
Qed.

(** A cell is falsy exactly when it is absent or zero. *)
Lemma cell_falsy_spec (c : cell) :
  cell_truthy c = false <-> c = None \/ c = Some 0.
Proof.
  destruct c as [x|]; simpl.
  - unfold truthy, Req_bool. destruct (Req_dec_T x 0); simpl; split; intros H.
    + right. now subst.
    + reflexivity.
    + discriminate.
    + destruct H as [H|H]; [discriminate | injection H as ->; contradiction].
  - split; auto.
Qed.

Lemma cell_truthy_spec (c : cell) :
  cell_truthy c = true <-> exists x, c = Some x /\ x <> 0.
Proof.
  destruct c as [x|]; simpl.
  - rewrite truthy_spec. split.
    + intros H. now exists x.
    + intros (y & [= ->] & H). exact H.
  - split; [discriminate | intros (y & [=] & _)].
Qed.

(** ** The mortgage model *)

(** The early return of [_calculateMortgage]. *)
Lemma calculateMortgage_nonpositive_loan_general
    (loanAmount annualRate termYears : R) (type : string) :
  loanAmount <= 0 ->
  _calculateMortgage loanAmount annualRate termYears type
  = {| payment := 0; interest := 0 |}.
Proof.
  intros Hloan. unfold _calculateMortgage.
  now rewrite (Rle_bool_true _ _ Hloan).
Qed.

(** C10.  A loan amount that is zero or negative yields payment 0 and
    interest 0 whatever the rate, the term (zero included) and the repayment
    type: the function returns before [numPayments] is formed, so neither
    the division nor the amortisation formula takes part in the result. *)
Theorem calculateMortgage_nonpositive_loan
    (loanAmount annualRate termYears : R) (type : string) :
  loanAmount <= 0 ->
  _calculateMortgage loanAmount annualRate termYears type
  = {| payment := 0; interest := 0 |}.
Proof.
  intros Hloan. unfold _calculateMortgage.
  assert (Hguard : Rle_bool loanAmount 0 = true).
  { unfold Rle_bool. destruct (Rle_dec loanAmount 0); [reflexivity | lra]. }
  rewrite Hguard. reflexivity.
Qed.

Lemma calculateMortgage_nonpositive_loan_witness :
  -1000 <= 0 /\
  _calculateMortgage (-1000) 6 0 "PI" = {| payment := 0; interest := 0 |}.
Proof.
  split; [lra | apply (calculateMortgage_nonpositive_loan (-1000) 6 0 "PI"); lra].
Defined.



Lemma calculateMortgage_interest_only (loanAmount annualRate termYears : R) :
  0 < loanAmount -> annualRate <> 0 ->
  _calculateMortgage loanAmount annualRate termYears "IO"
  = {| payment := loanAmount * monthlyRate_of annualRate;
       interest := loanAmount * monthlyRate_of annualRate |}.
Proof.
  intros Hloan Hrate. unfold _calculateMortgage.
  rewrite (Rle_bool_false _ _ Hloan), (Req_bool_false _ _ Hrate). reflexivity.
Qed.

Lemma calculateMortgage_principal_and_interest
    (loanAmount annualRate termYears : R) (type : string) :
  0 < loanAmount -> annualRate <> 0 -> type <> "IO" ->
  _calculateMortgage loanAmount annualRate termYears type
  = let factor := Math_pow (1 + monthlyRate_of annualRate) (termYears * 12) in
    {| payment := loanAmount * monthlyRate_of annualRate * factor / (factor - 1);
       interest := loanAmount * monthlyRate_of annualRate |}.
Proof.
  intros Hloan Hrate Htype. unfold _calculateMortgage.
  rewrite (Rle_bool_false _ _ Hloan), (Req_bool_false _ _ Hrate).
  apply String.eqb_neq in Htype. rewrite Htype. reflexivity.
Qed.




(** Over 100 years at the same rate the factor 2^1200 is beyond the
    largest binary64 number: [Math.pow] returns [Infinity], and the payment
    [Infinity / Infinity] is [NaN], which is greater than nothing. *)
Lemma payment_is_NaN_when_factor_overflows
    (Math_pow : float -> float -> float) :
  Math_pow 2%float 1200%float = PrimFloat.infinity ->
  let mortgage := Binary64._calculateMortgage Math_pow 500000 1200 100 "PI" in
  PrimFloat.is_nan (Binary64.payment mortgage) = true /\
  PrimFloat.ltb (Binary64.interest mortgage) (Binary64.payment mortgage)
  = false.
Proof.
  intros Hpow. cbv zeta. unfold Binary64._calculateMortgage.
  vm_compute. rewrite Hpow. vm_compute. split; reflexivity.
Qed.

(** ** The recompute pass, one record at a time *)

Section RecomputeArea.

Variable inputs : Controls.
Variables deposit_type mortgage_type : string.

Local Abbreviation pass :=
  (_updateAllRatios_area inputs deposit_type mortgage_type).

(** [_calculateQuartilePayments] writes the two quartile payments and
    nothing else. *)
Lemma quartile_payments_frame (data : AreaRecord) (deposit rate term : R)
    (type : string) :
  let data' := _calculateQuartilePayments data deposit rate term type in
  same_raw data data' /\
  calculated_weekly_payment data' = calculated_weekly_payment data /\
  calculated_weekly_interest data' = calculated_weekly_interest data /\
  rent_vs_payment_ratio data' = rent_vs_payment_ratio data.
Proof.
  unfold _calculateQuartilePayments, same_raw. cbv zeta.
  destruct (truthy (or_zero (yearly_first_quartile_sales_000s data) * 1000));
    cbn [yearly_third_quartile_sales_000s
           set_yearly_first_quartile_weekly_payment];
    destruct (truthy (or_zero (yearly_third_quartile_sales_000s data) * 1000));
    cbn; repeat split; reflexivity.
Qed.

Lemma quartile_payments_first (data : AreaRecord) (deposit rate term : R)
    (type : string) :
  yearly_first_quartile_weekly_payment
    (_calculateQuartilePayments data deposit rate term type)
  = if cell_truthy (yearly_first_quartile_sales_000s data) then
      Num (payment
             (_calculateMortgage
                (Math_max 0
                   (or_zero (yearly_first_quartile_sales_000s data) * 1000
                    - deposit)) rate term type) * 12 / 52)
    else Null.
Proof.
  unfold _calculateQuartilePayments. cbv zeta.
  rewrite <- (truthy_thousands (yearly_first_quartile_sales_000s data)).
  destruct (truthy (or_zero (yearly_first_quartile_sales_000s data) * 1000));
    cbn [yearly_third_quartile_sales_000s
           set_yearly_first_quartile_weekly_payment];
    destruct (truthy (or_zero (yearly_third_quartile_sales_000s data) * 1000));
    reflexivity.
Qed.

Lemma quartile_payments_third (data : AreaRecord) (deposit rate term : R)
    (type : string) :
  yearly_third_quartile_weekly_payment
    (_calculateQuartilePayments data deposit rate term type)
  = if cell_truthy (yearly_third_quartile_sales_000s data) then
      Num (payment
             (_calculateMortgage
                (Math_max 0
                   (or_zero (yearly_third_quartile_sales_000s data) * 1000
                    - deposit)) rate term type) * 12 / 52)
    else yearly_third_quartile_weekly_payment data.
Proof.
  unfold _calculateQuartilePayments. cbv zeta.
  rewrite <- (truthy_thousands (yearly_third_quartile_sales_000s data)).
  destruct (truthy (or_zero (yearly_first_quartile_sales_000s data) * 1000));
    cbn [yearly_third_quartile_sales_000s
           set_yearly_first_quartile_weekly_payment];
    destruct (truthy (or_zero (yearly_third_quartile_sales_000s data) * 1000));
    reflexivity.
Qed.

(** A record without a (non-zero) median sale price is returned as is. *)
Lemma pass_skips (data : AreaRecord) :
  cell_truthy (yearly_median_sales_price_000s data) = false ->
  pass data = data.
Proof.
  intros H. unfold pass, _updateAllRatios_area. cbv zeta.
  now rewrite truthy_thousands, H.
Qed.

(** The five computed properties after the pass over a record that has a
    median sale price. *)
Lemma pass_weekly_payment (data : AreaRecord) :
  cell_truthy (yearly_median_sales_price_000s data) = true ->
  calculated_weekly_payment (pass data)
  = Num (weekly_payment_on inputs mortgage_type
           (or_zero (yearly_median_sales_price_000s data))
           (actualDeposit_of inputs deposit_type data)).
Proof.
  intros H. unfold pass, _updateAllRatios_area. cbv zeta.
  rewrite truthy_thousands, H.
  match goal with
  | |- context [_calculateQuartilePayments ?d ?dep ?r ?t ?ty] =>
      destruct (quartile_payments_frame d dep r t ty) as (_ & -> & _)
  end.
  destruct (negb _); [| destruct (Rlt_bool _ _)]; reflexivity.
Qed.

Lemma pass_weekly_interest (data : AreaRecord) :
  cell_truthy (yearly_median_sales_price_000s data) = true ->
  calculated_weekly_interest (pass data)
  = Num (weekly_interest_on inputs mortgage_type
           (or_zero (yearly_median_sales_price_000s data))
           (actualDeposit_of inputs deposit_type data)).
Proof.
  intros H. unfold pass, _updateAllRatios_area. cbv zeta.
  rewrite truthy_thousands, H.
  match goal with
  | |- context [_calculateQuartilePayments ?d ?dep ?r ?t ?ty] =>
      destruct (quartile_payments_frame d dep r t ty) as (_ & _ & -> & _)
  end.
  destruct (negb _); [| destruct (Rlt_bool _ _)]; reflexivity.
Qed.

Lemma pass_ratio (data : AreaRecord) :
  cell_truthy (yearly_median_sales_price_000s data) = true ->
  rent_vs_payment_ratio (pass data)
  = let weekly :=
      weekly_payment_on inputs mortgage_type
        (or_zero (yearly_median_sales_price_000s data))
        (actualDeposit_of inputs deposit_type data) in
    if negb (cell_truthy (yearly_median_weekly_rent data)) then Null
    else if Rlt_bool 0 weekly
         then Num (or_zero (yearly_median_weekly_rent data) / weekly)
         else Infinity.
Proof.
  intros H. unfold pass, _updateAllRatios_area. cbv zeta.
  rewrite truthy_thousands, H.
  match goal with
  | |- context [_calculateQuartilePayments ?d ?dep ?r ?t ?ty] =>
      destruct (quartile_payments_frame d dep r t ty) as (_ & _ & _ & ->)
  end.
  fold (actualDeposit_of inputs deposit_type data).
  fold (weekly_payment_on inputs mortgage_type
          (or_zero (yearly_median_sales_price_000s data))
          (actualDeposit_of inputs deposit_type data)).
  destruct (negb _); [| destruct (Rlt_bool _ _)]; reflexivity.
Qed.

Lemma pass_first_quartile (data : AreaRecord) :
  cell_truthy (yearly_median_sales_price_000s data) = true ->
  yearly_first_quartile_weekly_payment (pass data)
  = if cell_truthy (yearly_first_quartile_sales_000s data) then
      Num (weekly_payment_on inputs mortgage_type
             (or_zero (yearly_first_quartile_sales_000s data))
             (actualDeposit_of inputs deposit_type data))
    else Null.
Proof.
  intros H. unfold pass, _updateAllRatios_area. cbv zeta.
  rewrite truthy_thousands, H, quartile_payments_first.
  destruct (negb _); [| destruct (Rlt_bool _ _)]; reflexivity.
Qed.

Lemma pass_third_quartile (data : AreaRecord) :
  cell_truthy (yearly_median_sales_price_000s data) = true ->
  yearly_third_quartile_weekly_payment (pass data)
  = if cell_truthy (yearly_third_quartile_sales_000s data) then
      Num (weekly_payment_on inputs mortgage_type
             (or_zero (yearly_third_quartile_sales_000s data))
             (actualDeposit_of inputs deposit_type data))
    else yearly_third_quartile_weekly_payment data.
Proof.
  intros H. unfold pass, _updateAllRatios_area. cbv zeta.
  rewrite truthy_thousands, H, quartile_payments_third.
  destruct (negb _); [| destruct (Rlt_bool _ _)]; reflexivity.
Qed.

(** The pass never touches the raw cells. *)
Lemma pass_same_raw (data : AreaRecord) : same_raw data (pass data).
Proof.
  unfold pass, _updateAllRatios_area. cbv zeta.
  destruct (truthy _).
  - match goal with
    | |- context [_calculateQuartilePayments ?d ?dep ?r ?t ?ty] =>
        destruct (quartile_payments_frame d dep r t ty) as (Hraw & _)
    end.
    revert Hraw. unfold same_raw.
    destruct (negb _); [| destruct (Rlt_bool _ _)]; cbn; intros Hraw; exact Hraw.
  - unfold same_raw. repeat split; reflexivity.
Qed.

End RecomputeArea.

(** ** The worked example: 500000 at 6% over 30 years *)

(** The compounding factor of the example, as a ratio of integers. *)
Lemma example_factor :
  Math_pow (1 + monthlyRate_of 6) (30 * 12)
  = IZR (1005 ^ 360) / IZR (1000 ^ 360).
Proof.
  unfold Math_pow, monthlyRate_of.
  replace (30 * 12) with (INR 360) by (rewrite INR_IZR_INZ; simpl; lra).
  rewrite Rpower_pow by lra.
  replace (1 + 6 / 100 / 12) with (IZR 1005 * / IZR 1000) by lra.
  rewrite Rpow_mult_distr, pow_inv, !pow_IZR. reflexivity.
Qed.

Lemma example_factor_bounds :
  6.02257 < Math_pow (1 + monthlyRate_of 6) (30 * 12) < 6.02258.
Proof.
  rewrite example_factor.
  assert (Hden : 0 < IZR (1000 ^ 360))
    by (apply IZR_lt; vm_compute; reflexivity).
  assert (Hlo : IZR (602257 * 1000 ^ 360) < IZR (100000 * 1005 ^ 360))
    by (apply IZR_lt; vm_compute; reflexivity).
  assert (Hhi : IZR (100000 * 1005 ^ 360) < IZR (602258 * 1000 ^ 360))
    by (apply IZR_lt; vm_compute; reflexivity).
  rewrite !mult_IZR in Hlo, Hhi.
  revert Hden Hlo Hhi.
  generalize (IZR (1005 ^ 360)), (IZR (1000 ^ 360)). intros a b Hden Hlo Hhi.
  split; apply (Rmult_lt_reg_r b); try exact Hden;
    unfold Rdiv; rewrite Rmult_assoc, Rinv_l by lra; lra.
Qed.

(** The monthly payment of the example lies between 2997.752 and 2997.7535. *)
Lemma example_payment_bounds :
  2997.752 < payment (_calculateMortgage 500000 6 30 "PI") < 2997.7535.
Proof.
  rewrite calculateMortgage_principal_and_interest
    by (try lra; discriminate).
  cbv zeta. simpl payment. unfold Rdiv.
  replace (500000 * monthlyRate_of 6) with 2500 by (unfold monthlyRate_of; lra).
  pose proof example_factor_bounds as Hf. revert Hf.
  generalize (Math_pow (1 + monthlyRate_of 6) (30 * 12)). intros f [Hlo Hhi].
  assert (Hx : (f - 1) * / (f - 1) = 1) by (apply Rinv_r; lra).
  assert (Hpos : 0 < / (f - 1)) by (apply Rinv_0_lt_compat; lra).
  revert Hx Hpos. generalize (/ (f - 1)). intros x Hx Hpos.
  assert (Hx_hi : 5.02257 * x < 1).
  { rewrite <- Hx. apply Rmult_lt_compat_r; lra. }
  assert (Hx_lo : 1 < 5.02258 * x).
  { rewrite <- Hx. apply Rmult_lt_compat_r; lra. }
  replace (2500 * f * x) with (2500 + 2500 * x) by lra.
  lra.
Qed.

(** The weekly payment the pass computes for the example record. *)
Lemma example_weekly_payment_on :
  weekly_payment_on example_inputs "PI"
    (or_zero (yearly_median_sales_price_000s example_area))
    (actualDeposit_of example_inputs "amount" example_area)
  = payment (_calculateMortgage 500000 6 30 "PI") * 12 / 52.
Proof.
  unfold weekly_payment_on, actualDeposit_of, example_area, fresh_area,
    example_inputs.
  cbn [yearly_median_sales_price_000s or_zero String.eqb Ascii.eqb Bool.eqb
         depositAmount interestRate loanTerm].
  replace (Math_max 0 (500 * 1000 - 0)) with 500000
    by (unfold Math_max; rewrite Rmax_right; lra).
  reflexivity.
Qed.

(** C4 (as amended).  With loan amount 500000, annual rate 6, term 30 and
    type principal-and-interest, the monthly rate is 0.005, the monthly
    payment is 2997.75 to the cent, and the weekly payment, monthly times
    12/52, is 691.79 to the cent; the recompute pass stores that weekly
    payment for a record whose loan amount is 500000. *)
Theorem example_500000_at_6_percent_over_30_years :
  let mortgage := _calculateMortgage 500000 6 30 "PI" in
  monthlyRate_of 6 = 0.005 /\
  approximately (payment mortgage) 2997.75 /\
  approximately (payment mortgage * 12 / 52) 691.79 /\
  calculated_weekly_payment
    (_updateAllRatios_area example_inputs "amount" "PI" example_area)
  = Num (payment mortgage * 12 / 52).
Proof.
  cbv zeta. pose proof example_payment_bounds as [Hlo Hhi].
  repeat split.
  - unfold monthlyRate_of. lra.
  - unfold approximately. apply Rabs_le. lra.
  - unfold approximately. apply Rabs_le. lra.
  - rewrite pass_weekly_payment by (apply truthy_true; lra).
    now rewrite example_weekly_payment_on.
Qed.

(** C4 (as stated) fails: the weekly payment of the example is above 691.78,
    so it is not 691.02 to the cent. *)
Lemma example_weekly_payment_is_not_691_02 :
  let mortgage := _calculateMortgage 500000 6 30 "PI" in
  691.78 < payment mortgage * 12 / 52 /\
  ~ (monthlyRate_of 6 = 0.005 /\
     approximately (payment mortgage) 2997.75 /\
     approximately (payment mortgage * 12 / 52) 691.02).
Proof.
  cbv zeta. pose proof example_payment_bounds as [Hlo Hhi].
  split; [lra |].
  intros (_ & _ & H). unfold approximately in H.
  unfold Rabs in H. destruct (Rcase_abs _) in H; lra.
Qed.


(** ** Claims about the recompute pass *)

(** Two records with the same raw cells and the same computed properties
    are the same record. *)
Lemma AreaRecord_ext (d e : AreaRecord) :
  same_raw d e -> computed_fields d = computed_fields e -> d = e.
Proof.
  destruct d, e. unfold same_raw, computed_fields. cbn.
  intros (-> & -> & -> & -> & -> & -> & ->) [= -> -> -> -> ->]. reflexivity.
Qed.

Lemma same_raw_sym (d e : AreaRecord) : same_raw d e -> same_raw e d.
Proof. unfold same_raw. intuition congruence. Qed.

Lemma actualDeposit_same_raw (inputs : Controls) (deposit_type : string)
    (d e : AreaRecord) :
  same_raw d e ->
  actualDeposit_of inputs deposit_type d = actualDeposit_of inputs deposit_type e.
Proof.
  intros (_ & Hm & _). unfold actualDeposit_of. now rewrite Hm.
Qed.

(** On a record with a median sale price, four of the computed properties
    depend on the raw cells and the configuration only, and so does the
    third-quartile payment when the third-quartile price is there. *)
Lemma pass_depends_on_raw (inputs : Controls) (deposit_type mortgage_type : string)
    (d e : AreaRecord) :
  same_raw d e ->
  cell_truthy (yearly_median_sales_price_000s d) = true ->
  let pass := _updateAllRatios_area inputs deposit_type mortgage_type in
  calculated_weekly_payment (pass d) = calculated_weekly_payment (pass e) /\
  calculated_weekly_interest (pass d) = calculated_weekly_interest (pass e) /\
  rent_vs_payment_ratio (pass d) = rent_vs_payment_ratio (pass e) /\
  yearly_first_quartile_weekly_payment (pass d)
  = yearly_first_quartile_weekly_payment (pass e) /\
  (cell_truthy (yearly_third_quartile_sales_000s d) = true ->
   yearly_third_quartile_weekly_payment (pass d)
   = yearly_third_quartile_weekly_payment (pass e)).
Proof.
  intros Hraw Hd. cbv zeta.
  pose proof (actualDeposit_same_raw inputs deposit_type d e Hraw) as Hdep.
  destruct Hraw as (_ & Hm & Hr & H1 & H3 & _).
  assert (He : cell_truthy (yearly_median_sales_price_000s e) = true)
    by now rewrite <- Hm.
  rewrite !pass_weekly_payment, !pass_weekly_interest, !pass_ratio,
    !pass_first_quartile by assumption.
  rewrite <- Hm, <- Hr, <- H1, <- Hdep.
  repeat split; try reflexivity.
  intros Hq. rewrite !pass_third_quartile by assumption.
  rewrite <- H3, Hq, <- Hdep. reflexivity.
Qed.

(** Running the pass on its own result changes nothing. *)
Lemma pass_idempotent (inputs : Controls) (deposit_type mortgage_type : string)
    (d : AreaRecord) :
  let pass := _updateAllRatios_area inputs deposit_type mortgage_type in
  pass (pass d) = pass d.
Proof.
  cbv zeta.
  destruct (cell_truthy (yearly_median_sales_price_000s d)) eqn:Hd.
  - pose proof (pass_same_raw inputs deposit_type mortgage_type d) as Hraw.
    apply AreaRecord_ext.
    + apply same_raw_sym, pass_same_raw.
    + assert (Hsym : same_raw (_updateAllRatios_area inputs deposit_type mortgage_type d) d)
        by (apply same_raw_sym, Hraw).
      assert (Hd' : cell_truthy
                      (yearly_median_sales_price_000s
                         (_updateAllRatios_area inputs deposit_type mortgage_type d))
                    = true)
        by (destruct Hraw as (_ & <- & _); exact Hd).
      destruct (pass_depends_on_raw inputs deposit_type mortgage_type _ _ Hsym Hd')
        as (E1 & E2 & E3 & E4 & E5).
      unfold computed_fields. rewrite E1, E2, E3, E4.
      destruct (cell_truthy
                  (yearly_third_quartile_sales_000s
                     (_updateAllRatios_area inputs deposit_type mortgage_type d)))
        eqn:Hq.
      * now rewrite (E5 eq_refl).
      * rewrite (pass_third_quartile inputs deposit_type mortgage_type _ Hd'), Hq.
        reflexivity.
  - rewrite (pass_skips inputs deposit_type mortgage_type d Hd).
    exact (pass_skips inputs deposit_type mortgage_type d Hd).
Qed.

(** C6.  A record whose median sale price is absent or zero is skipped: the
    pass returns it unchanged, so none of its five computed properties is
    written, and properties that were unset stay unset rather than becoming
    zero, whether or not the record has a rent.  In [_updateAllRatios] every
    such record of [this.housingData] is therefore left in its place as it
    was. *)
Theorem area_without_sale_price_is_skipped
    (inputs : Controls) (this : HousingCostMap) (data : AreaRecord) :
  yearly_median_sales_price_000s data = None \/
  yearly_median_sales_price_000s data = Some 0 ->
  (forall deposit_type mortgage_type : string,
      let data' :=
        _updateAllRatios_area inputs deposit_type mortgage_type data in
      data' = data /\
      computed_fields data' = computed_fields data /\
      (computed_fields data
       = (Undefined, Undefined, Undefined, Undefined, Undefined) ->
       computed_fields data'
       = (Undefined, Undefined, Undefined, Undefined, Undefined))) /\
  (forall i : nat,
      nth_error (housingData this) i = Some data ->
      nth_error (housingData (_updateAllRatios inputs this)) i = Some data).
Proof.
  intros Hsale. apply cell_falsy_spec in Hsale. split.
  - intros deposit_type mortgage_type. cbv zeta.
    rewrite (pass_skips inputs deposit_type mortgage_type data Hsale).
    repeat split; auto.
  - intros i Hi. unfold _updateAllRatios. cbn.
    rewrite (map_nth_error _ _ _ Hi). f_equal.
    apply pass_skips, Hsale.
Qed.

Lemma area_without_sale_price_is_skipped_witness :
  (yearly_median_sales_price_000s unsold_area = None \/
   yearly_median_sales_price_000s unsold_area = Some 0) /\
  yearly_median_weekly_rent unsold_area = Some 500 /\
  (forall i : nat,
      nth_error (housingData example_map) i = Some unsold_area ->
      nth_error (housingData (_updateAllRatios example_inputs example_map)) i
      = Some unsold_area).
Proof.
  split; [right; reflexivity |]. split; [reflexivity |].
  apply (area_without_sale_price_is_skipped example_inputs example_map
           unsold_area).
  right. reflexivity.
Defined.

(** C3.  On a record with a median sale price the pass stores a weekly
    payment and sets the ratio by this case split: [null] when the rent is
    absent or zero; otherwise rent divided by the weekly payment when that
    payment is greater than zero; otherwise [Infinity]. *)
Theorem ratio_case_split
    (inputs : Controls) (deposit_type mortgage_type : string)
    (data : AreaRecord) (salePrice : R) :
  yearly_median_sales_price_000s data = Some salePrice -> salePrice <> 0 ->
  let data' := _updateAllRatios_area inputs deposit_type mortgage_type data in
  exists weeklyPayment : R,
    calculated_weekly_payment data' = Num weeklyPayment /\
    (yearly_median_weekly_rent data = None \/
     yearly_median_weekly_rent data = Some 0 ->
     rent_vs_payment_ratio data' = Null) /\
    (forall rent : R,
        yearly_median_weekly_rent data = Some rent -> rent <> 0 ->
        (0 < weeklyPayment ->
         rent_vs_payment_ratio data' = Num (rent / weeklyPayment)) /\
        (~ 0 < weeklyPayment ->
         rent_vs_payment_ratio data' = Infinity)).
Proof.
  intros Hsale Hnz. cbv zeta.
  assert (Hm : cell_truthy (yearly_median_sales_price_000s data) = true)
    by (apply cell_truthy_spec; eauto).
  eexists. split; [apply pass_weekly_payment, Hm |].
  rewrite pass_ratio by exact Hm. cbv zeta.
  set (weekly := weekly_payment_on _ _ _ _).
  split.
  - intros Hrent. apply cell_falsy_spec in Hrent. now rewrite Hrent.
  - intros rent Hrent Hrnz.
    assert (Ht : cell_truthy (yearly_median_weekly_rent data) = true)
      by (apply cell_truthy_spec; eauto).
    rewrite Ht, Hrent. cbn [negb or_zero]. split; intros Hw.
    + now rewrite Rlt_bool_true.
    + rewrite Rlt_bool_false by lra. reflexivity.
Qed.

Lemma ratio_case_split_witness :
  yearly_median_sales_price_000s example_area = Some 500 /\
  500 <> 0 /\
  exists weeklyPayment : R,
    calculated_weekly_payment
      (_updateAllRatios_area example_inputs "amount" "PI" example_area)
    = Num weeklyPayment /\
    (yearly_median_weekly_rent example_area = None \/
     yearly_median_weekly_rent example_area = Some 0 ->
     rent_vs_payment_ratio
       (_updateAllRatios_area example_inputs "amount" "PI" example_area)
     = Null) /\
    (forall rent : R,
        yearly_median_weekly_rent example_area = Some rent -> rent <> 0 ->
        (0 < weeklyPayment ->
         rent_vs_payment_ratio
           (_updateAllRatios_area example_inputs "amount" "PI" example_area)
         = Num (rent / weeklyPayment)) /\
        (~ 0 < weeklyPayment ->
         rent_vs_payment_ratio
           (_updateAllRatios_area example_inputs "amount" "PI" example_area)
         = Infinity)).
Proof.
  split; [reflexivity |]. split; [lra |].
  apply (ratio_case_split example_inputs "amount" "PI" example_area 500);
    [reflexivity | lra].
Defined.

(** The three outcomes of the case split all occur: a rent of 700 against
    the example loan gives 700 divided by the weekly payment, a record
    without rent gives [null], and a deposit covering the whole price gives
    [Infinity]. *)
Lemma ratio_case_split_examples :
  (exists weeklyPayment : R,
      0 < weeklyPayment /\
      rent_vs_payment_ratio
        (_updateAllRatios_area example_inputs "amount" "PI" example_area)
      = Num (700 / weeklyPayment)) /\
  rent_vs_payment_ratio
    (_updateAllRatios_area example_inputs "amount" "PI"
       (fresh_area "2001" (Some 500) None None None))
  = Null /\
  rent_vs_payment_ratio
    (_updateAllRatios_area
       {| interestRate := 6; loanTerm := 30; depositPercent := 100;
          depositAmount := 0 |} "percent" "PI" example_area)
  = Infinity.
Proof.
  repeat split.
  - exists (payment (_calculateMortgage 500000 6 30 "PI") * 12 / 52).
    pose proof example_payment_bounds as [Hlo Hhi].
    split; [lra |].
    rewrite pass_ratio by (apply truthy_true; lra). cbv zeta.
    rewrite example_weekly_payment_on.
    cbn [example_area fresh_area yearly_median_weekly_rent cell_truthy or_zero].
    rewrite truthy_true by lra. cbn [negb].
    rewrite Rlt_bool_true by lra. reflexivity.
  - rewrite pass_ratio by (apply truthy_true; lra). reflexivity.
  - rewrite pass_ratio by (apply truthy_true; lra). cbv zeta.
    cbn [example_area fresh_area yearly_median_weekly_rent cell_truthy or_zero].
    rewrite truthy_true by lra. cbn [negb].
    unfold weekly_payment_on, actualDeposit_of.
    cbn [example_area fresh_area yearly_median_sales_price_000s or_zero
           String.eqb Ascii.eqb Bool.eqb depositPercent interestRate loanTerm].
    replace (Math_max 0 (500 * 1000 - 500 * 1000 * (100 / 100))) with 0
      by (unfold Math_max; rewrite Rmax_left; lra).
    rewrite calculateMortgage_nonpositive_loan_general by lra.
    cbn [payment]. rewrite Rlt_bool_false by lra. reflexivity.
Qed.

(** ** Quartile payments *)

(** Reading the cells of the example records and control panels. *)
Ltac read_examples :=
  cbn [example_area quartile_area unsold_area fresh_area
       example_inputs quartile_inputs
       yearly_median_sales_price_000s yearly_median_weekly_rent
       yearly_first_quartile_sales_000s yearly_third_quartile_sales_000s
       interestRate loanTerm depositPercent depositAmount
       cell_truthy or_zero String.eqb Ascii.eqb Bool.eqb negb] in *.

(** The weekly payment of an interest-only loan. *)
Lemma weekly_payment_on_interest_only
    (inputs : Controls) (thousands deposit : R) :
  0 < thousands * 1000 - deposit -> interestRate inputs <> 0 ->
  weekly_payment_on inputs "IO" thousands deposit
  = (thousands * 1000 - deposit) * monthlyRate_of (interestRate inputs)
    * 12 / 52.
Proof.
  intros Hloan Hrate. unfold weekly_payment_on, Math_max.
  rewrite Rmax_right by lra.
  rewrite calculateMortgage_interest_only by assumption. reflexivity.
Qed.

(** In any mode but percent the deposit is the flat amount, and the code's
    quartile payment is the one of steps 1 to 4. *)
Lemma spec_weekly_payment_flat_deposit
    (inputs : Controls) (deposit_type mortgage_type : string)
    (data : AreaRecord) (c : cell) :
  deposit_type <> "percent" ->
  spec_weekly_payment inputs deposit_type mortgage_type c
  = if cell_truthy c
    then Some (weekly_payment_on inputs mortgage_type (or_zero c)
                 (actualDeposit_of inputs deposit_type data))
    else None.
Proof.
  intros Hmode. apply String.eqb_neq in Hmode.
  unfold spec_weekly_payment, actualDeposit_of, weekly_payment_on.
  now rewrite Hmode.
Qed.

(** C1 (as amended).  On a record with a median sale price, the deposit is
    resolved once, from the median sale price (its [depositPercent] share
    in percent mode, the flat [depositAmount] otherwise), and that same
    amount is used for both quartiles: a quartile payment whose quartile
    sale price is present and non-zero is the model's payment on
    [max(0, quartilePrice - deposit)] times 12/52.  The first-quartile
    payment is [null] when its sale price is absent or zero; the
    third-quartile payment stays without a value in that case when it had
    none before.  With a flat deposit, on such a record, this is what steps
    1 to 4 prescribe for the quartile sale prices. *)
Theorem quartile_payments_use_median_deposit
    (inputs : Controls) (deposit_type mortgage_type : string)
    (data : AreaRecord) (salePrice : R) :
  yearly_median_sales_price_000s data = Some salePrice -> salePrice <> 0 ->
  let data' := _updateAllRatios_area inputs deposit_type mortgage_type data in
  let deposit :=
    if String.eqb deposit_type "percent"
    then salePrice * 1000 * (depositPercent inputs / 100)
    else depositAmount inputs in
  let weekly_payment (quartile : R) :=
    payment
      (_calculateMortgage (Math_max 0 (quartile * 1000 - deposit))
         (interestRate inputs) (loanTerm inputs) mortgage_type) * 12 / 52 in
  (forall q1 : R,
      yearly_first_quartile_sales_000s data = Some q1 -> q1 <> 0 ->
      yearly_first_quartile_weekly_payment data' = Num (weekly_payment q1)) /\
  (yearly_first_quartile_sales_000s data = None \/
   yearly_first_quartile_sales_000s data = Some 0 ->
   yearly_first_quartile_weekly_payment data' = Null) /\
  (forall q3 : R,
      yearly_third_quartile_sales_000s data = Some q3 -> q3 <> 0 ->
      yearly_third_quartile_weekly_payment data' = Num (weekly_payment q3)) /\
  (yearly_third_quartile_sales_000s data = None \/
   yearly_third_quartile_sales_000s data = Some 0 ->
   loosely_null (yearly_third_quartile_weekly_payment data) = true ->
   loosely_null (yearly_third_quartile_weekly_payment data') = true) /\
  (deposit_type <> "percent" ->
   loosely_null (yearly_third_quartile_weekly_payment data) = true ->
   quartile_payments_follow_steps_1_to_4 inputs deposit_type mortgage_type
     data).
Proof.
  intros Hsale Hnz. cbv zeta.
  assert (Hm : cell_truthy (yearly_median_sales_price_000s data) = true)
    by (apply cell_truthy_spec; eauto).
  assert (Hdep : actualDeposit_of inputs deposit_type data
                 = if String.eqb deposit_type "percent"
                   then salePrice * 1000 * (depositPercent inputs / 100)
                   else depositAmount inputs)
    by (unfold actualDeposit_of; now rewrite Hsale).
  rewrite <- Hdep.
  pose proof (pass_first_quartile inputs deposit_type mortgage_type data Hm)
    as H1.
  pose proof (pass_third_quartile inputs deposit_type mortgage_type data Hm)
    as H3.
  repeat split.
  - intros q1 Hq Hq0. rewrite H1, Hq. cbn [cell_truthy or_zero].
    now rewrite truthy_true.
  - intros Hq. apply cell_falsy_spec in Hq. now rewrite H1, Hq.
  - intros q3 Hq Hq0. rewrite H3, Hq. cbn [cell_truthy or_zero].
    now rewrite truthy_true.
  - intros Hq Hunset. apply cell_falsy_spec in Hq. now rewrite H3, Hq.
  - rewrite H1, (spec_weekly_payment_flat_deposit _ _ _ data) by assumption.
    destruct (cell_truthy (yearly_first_quartile_sales_000s data));
      cbn [holds loosely_null]; reflexivity.
  - rewrite H3, (spec_weekly_payment_flat_deposit _ _ _ data) by assumption.
    destruct (cell_truthy (yearly_third_quartile_sales_000s data));
      cbn [holds]; [reflexivity | assumption].
Qed.

Lemma quartile_payments_use_median_deposit_witness :
  yearly_median_sales_price_000s quartile_area = Some 800 /\
  800 <> 0 /\
  yearly_first_quartile_weekly_payment
    (_updateAllRatios_area quartile_inputs "percent" "IO" quartile_area)
  = Num (payment
           (_calculateMortgage
              (Math_max 0 (600 * 1000 - 800 * 1000 * (20 / 100))) 5 25 "IO")
         * 12 / 52).
Proof.
  split; [reflexivity |]. split; [lra |].
  apply (quartile_payments_use_median_deposit quartile_inputs "percent" "IO"
           quartile_area 800); [reflexivity | lra | reflexivity | lra].
Defined.

(** C1 (as stated) fails.  With a 20 percent deposit, a median price of
    800000 and a first-quartile price of 600000, interest only at 5 percent:
    the pass lends 600000 - 160000 = 440000 on the first quartile, where
    steps 1 to 4 on the quartile price lend 600000 - 120000 = 480000. *)
Lemma quartile_deposit_is_not_a_share_of_the_quartile_price :
  yearly_first_quartile_weekly_payment
    (_updateAllRatios_area quartile_inputs "percent" "IO" quartile_area)
  = Num (440000 * (5 / 100 / 12) * 12 / 52) /\
  spec_weekly_payment quartile_inputs "percent" "IO"
    (yearly_first_quartile_sales_000s quartile_area)
  = Some (480000 * (5 / 100 / 12) * 12 / 52) /\
  ~ quartile_payments_follow_steps_1_to_4 quartile_inputs "percent" "IO"
      quartile_area.
Proof.
  assert (Hcode :
    yearly_first_quartile_weekly_payment
      (_updateAllRatios_area quartile_inputs "percent" "IO" quartile_area)
    = Num (440000 * (5 / 100 / 12) * 12 / 52)).
  { rewrite pass_first_quartile by (apply truthy_true; lra).
    unfold actualDeposit_of. read_examples.
    rewrite truthy_true by lra.
    rewrite weekly_payment_on_interest_only by (read_examples; lra).
    read_examples. unfold monthlyRate_of. f_equal. lra. }
  assert (Hspec :
    spec_weekly_payment quartile_inputs "percent" "IO"
      (yearly_first_quartile_sales_000s quartile_area)
    = Some (480000 * (5 / 100 / 12) * 12 / 52)).
  { unfold spec_weekly_payment. read_examples.
    rewrite truthy_true by lra.
    pose proof (weekly_payment_on_interest_only quartile_inputs 600
                  (600 * 1000 * (20 / 100))) as Hw.
    unfold weekly_payment_on in Hw. read_examples.
    rewrite Hw by lra. unfold monthlyRate_of. f_equal. lra. }
  split; [exact Hcode |]. split; [exact Hspec |].
  unfold quartile_payments_follow_steps_1_to_4. cbv zeta.
  rewrite Hcode, Hspec. cbn [holds]. intros [H _].
  injection H as H. lra.
Qed.

(** ** Purity of the computed properties *)

Lemma same_raw_trans (d e f : AreaRecord) :
  same_raw d e -> same_raw e f -> same_raw d f.
Proof. unfold same_raw. intuition congruence. Qed.

Lemma as_loaded_same_raw (d : AreaRecord) : same_raw d (as_loaded d).
Proof. unfold same_raw. repeat split; reflexivity. Qed.

(** A record as loaded is its raw cells and nothing more. *)
Lemma as_loaded_depends_on_raw (d e : AreaRecord) :
  same_raw d e -> as_loaded d = as_loaded e.
Proof.
  intros (H1 & H2 & H3 & H4 & H5 & H6 & H7). unfold as_loaded.
  now rewrite H1, H2, H3, H4, H5, H6, H7.
Qed.

(** What no pass has written is still unset.  On a record the program can
    hold, the computed properties are all [undefined] when the record has
    no median sale price, since every pass skipped it; and the
    third-quartile payment is [undefined] when the record has no
    third-quartile sale price, since its only assignments stand under
    [if (q3Sales)]. *)
Lemma reachable_unwritten (d : AreaRecord) :
  reachable d ->
  (cell_truthy (yearly_median_sales_price_000s d) = false ->
   computed_fields d
   = (Undefined, Undefined, Undefined, Undefined, Undefined)) /\
  (cell_truthy (yearly_third_quartile_sales_000s d) = false ->
   yearly_third_quartile_weekly_payment d = Undefined).
Proof.
  induction 1 as [d | inputs deposit_type mortgage_type d Hd [IHm IHq]].
  - split; intros _; reflexivity.
  - pose proof (pass_same_raw inputs deposit_type mortgage_type d)
      as (_ & Hm & _ & _ & Hq & _).
    rewrite <- Hm, <- Hq.
    destruct (cell_truthy (yearly_median_sales_price_000s d)) eqn:Hsale.
    + split; [discriminate |].
      intros Hq3. rewrite pass_third_quartile, Hq3 by exact Hsale.
      exact (IHq Hq3).
    + rewrite (pass_skips inputs deposit_type mortgage_type d Hsale).
      split; [exact IHm | exact IHq].
Qed.

(** On a record the program can hold, the pass gives what it gives on the
    record as loaded. *)
Lemma pass_of_reachable
    (inputs : Controls) (deposit_type mortgage_type : string)
    (d : AreaRecord) :
  reachable d ->
  _updateAllRatios_area inputs deposit_type mortgage_type d
  = _updateAllRatios_area inputs deposit_type mortgage_type (as_loaded d).
Proof.
  intros Hd. destruct (reachable_unwritten d Hd) as [Hm Hq].
  pose proof (as_loaded_same_raw d) as Hraw.
  destruct (cell_truthy (yearly_median_sales_price_000s d)) eqn:Hsale.
  - apply AreaRecord_ext.
    + apply same_raw_trans with d;
        [apply same_raw_sym, pass_same_raw |].
      apply same_raw_trans with (as_loaded d);
        [exact Hraw | apply pass_same_raw].
    + destruct (pass_depends_on_raw inputs deposit_type mortgage_type
                  d (as_loaded d) Hraw Hsale) as (E1 & E2 & E3 & E4 & E5).
      unfold computed_fields. rewrite E1, E2, E3, E4.
      destruct (cell_truthy (yearly_third_quartile_sales_000s d)) eqn:Hq3.
      * now rewrite (E5 eq_refl).
      * rewrite !pass_third_quartile by exact Hsale.
        cbn [as_loaded yearly_third_quartile_sales_000s
             yearly_third_quartile_weekly_payment].
        rewrite Hq3, (Hq eq_refl). reflexivity.
  - rewrite !pass_skips by exact Hsale.
    apply AreaRecord_ext; [exact Hraw |].
    rewrite (Hm eq_refl). reflexivity.
Qed.

(** C2.  On every record the program can hold (a record as loaded, or
    what earlier passes under any configurations have left of one), the
    computed properties after a pass are a function of the raw cells and
    the configuration alone: the pass gives what it gives on the record as
    loaded, which is made of the raw cells only.  So two such records with
    the same raw cells end a pass with the same computed properties,
    whatever their computed properties held before, and a second pass with
    the same configuration changes nothing. *)
Theorem computed_fields_determined_by_raw_cells
    (inputs : Controls) (deposit_type mortgage_type : string)
    (d e : AreaRecord) :
  reachable d -> reachable e -> same_raw d e ->
  let pass := _updateAllRatios_area inputs deposit_type mortgage_type in
  pass d = pass (as_loaded d) /\
  as_loaded d = as_loaded e /\
  computed_fields (pass d) = computed_fields (pass e) /\
  pass (pass d) = pass d /\
  (forall this : HousingCostMap,
      _updateAllRatios inputs (_updateAllRatios inputs this)
      = _updateAllRatios inputs this).
Proof.
  intros Hd He Hraw. cbv zeta.
  pose proof (as_loaded_depends_on_raw d e Hraw) as Hloaded.
  split; [exact (pass_of_reachable inputs deposit_type mortgage_type d Hd) |].
  split; [exact Hloaded |].
  split; [| split].
  - rewrite (pass_of_reachable inputs deposit_type mortgage_type d Hd),
      (pass_of_reachable inputs deposit_type mortgage_type e He), Hloaded.
    reflexivity.
  - apply pass_idempotent.
  - intros this. unfold _updateAllRatios, set_housingData. cbn.
    f_equal. rewrite map_map. apply map_ext. intros a. apply pass_idempotent.
Qed.

(** [quartile_area] as loaded and after a pass at 6 percent, interest
    only: the computed properties differ before the pass at 5 percent and
    agree after it. *)
Lemma computed_fields_determined_by_raw_cells_witness :
  reachable quartile_area_after_a_pass /\
  reachable quartile_area /\
  same_raw quartile_area_after_a_pass quartile_area /\
  computed_fields quartile_area_after_a_pass <> computed_fields quartile_area /\
  computed_fields
    (_updateAllRatios_area quartile_inputs "percent" "PI"
       quartile_area_after_a_pass)
  = computed_fields
      (_updateAllRatios_area quartile_inputs "percent" "PI" quartile_area).
Proof.
  assert (Hloaded : reachable quartile_area)
    by exact (reachable_loaded quartile_area).
  assert (Hpassed : reachable quartile_area_after_a_pass)
    by (apply reachable_pass; exact Hloaded).
  assert (Hraw : same_raw quartile_area_after_a_pass quartile_area)
    by (apply same_raw_sym, pass_same_raw).
  split; [exact Hpassed |]. split; [exact Hloaded |]. split; [exact Hraw |].
  split.
  - unfold computed_fields, quartile_area_after_a_pass.
    rewrite pass_weekly_payment
      by (apply cell_truthy_spec; exists 800; split; [reflexivity | lra]).
    discriminate.
  - apply (computed_fields_determined_by_raw_cells quartile_inputs
             "percent" "PI" quartile_area_after_a_pass quartile_area
             Hpassed Hloaded Hraw).
Defined.

(** The third-quartile payment is the one computed property the pass can
    leave behind on a record it does process: without a third-quartile sale
    price it keeps the value it had, where the first-quartile payment is
    reset to [null]. *)
Lemma third_quartile_payment_kept_without_sale_price
    (inputs : Controls) (deposit_type mortgage_type : string)
    (data : AreaRecord) :
  cell_truthy (yearly_median_sales_price_000s data) = true ->
  cell_truthy (yearly_third_quartile_sales_000s data) = false ->
  yearly_third_quartile_weekly_payment
    (_updateAllRatios_area inputs deposit_type mortgage_type data)
  = yearly_third_quartile_weekly_payment data.
Proof.
  intros Hm Hq. now rewrite pass_third_quartile, Hq.
Qed.

(** ** [Array.prototype.sort] *)

Section ArraySortFacts.

Context {A : Type}.
Variable comparefn : A -> A -> number.

Lemma insert_Permutation (x : A) (l : list A) :
  Permutation (x :: l) (insert comparefn x l).
Proof.
  induction l as [| y l IH]; simpl.
  - apply Permutation_refl.
  - destruct (sorts_after comparefn x y).
    + apply perm_trans with (y :: x :: l); [apply perm_swap |].
      apply perm_skip, IH.
    + apply Permutation_refl.
Qed.

(** The sorted array holds the elements it held before. *)
Lemma Array_sort_Permutation (l : list A) :
  Permutation l (Array_sort comparefn l).
Proof.
  induction l as [| x l IH]; simpl.
  - apply perm_nil.
  - apply perm_trans with (x :: Array_sort comparefn l).
    + apply perm_skip, IH.
    + apply insert_Permutation.
Qed.

Lemma Forall_insert (P : A -> Prop) (x : A) (l : list A) :
  P x -> Forall P l -> Forall P (insert comparefn x l).
Proof.
  intros Hx Hl.
  apply (Permutation_Forall (insert_Permutation x l)).
  constructor; assumption.
Qed.

(** The sorted array is ordered by any relation [before] that the
    comparator enforces: [before x y] when the comparator does not put
    [x] after [y], [before y x] when it does, and [before] transitive. *)
Variable before : A -> A -> Prop.
Hypothesis before_kept :
  forall x y, sorts_after comparefn x y = false -> before x y.
Hypothesis before_swapped :
  forall x y, sorts_after comparefn x y = true -> before y x.
Hypothesis before_trans :
  forall x y z, before x y -> before y z -> before x z.

Lemma insert_StronglySorted (x : A) (l : list A) :
  StronglySorted before l -> StronglySorted before (insert comparefn x l).
Proof.
  induction 1 as [| y l Hsorted IH Hall]; simpl.
  - repeat constructor.
  - destruct (sorts_after comparefn x y) eqn:Hcmp.
    + constructor; [exact IH |].
      apply Forall_insert; [apply before_swapped, Hcmp | exact Hall].
    + constructor; [constructor; assumption |].
      apply before_kept in Hcmp.
      constructor; [exact Hcmp |].
      eapply Forall_impl; [| exact Hall].
      intros z Hz. exact (before_trans x y z Hcmp Hz).
Qed.

Lemma Array_sort_StronglySorted (l : list A) :
  StronglySorted before (Array_sort comparefn l).
Proof.
  induction l as [| x l IH]; simpl.
  - constructor.
  - apply insert_StronglySorted, IH.
Qed.

End ArraySortFacts.

(** The same for a comparator that enforces [before] on the elements of the
    array only, which are those that satisfy [P]. *)
Section ArraySortOn.

Context {A : Type}.
Variable comparefn : A -> A -> number.
Variable P : A -> Prop.
Variable before : A -> A -> Prop.
Hypothesis before_kept :
  forall x y, P x -> P y -> sorts_after comparefn x y = false -> before x y.
Hypothesis before_swapped :
  forall x y, P x -> P y -> sorts_after comparefn x y = true -> before y x.
Hypothesis before_trans :
  forall x y z, P x -> P y -> P z -> before x y -> before y z -> before x z.

Lemma insert_StronglySorted_on (x : A) (l : list A) :
  P x -> Forall P l ->
  StronglySorted before l -> StronglySorted before (insert comparefn x l).
Proof.
  intros Hx HP Hsorted. revert HP.
  induction Hsorted as [| y l Hsorted IH Hall]; simpl; intros HP.
  - repeat constructor.
  - pose proof (Forall_inv HP) as Hy.
    pose proof (Forall_inv_tail HP) as HPl.
    destruct (sorts_after comparefn x y) eqn:Hcmp.
    + constructor; [exact (IH HPl) |].
      apply Forall_insert; [apply before_swapped; assumption | exact Hall].
    + constructor; [constructor; assumption |].
      apply before_kept in Hcmp; [| assumption | assumption].
      constructor; [exact Hcmp |].
      rewrite Forall_forall in Hall, HPl. apply Forall_forall.
      intros z Hz. apply (before_trans x y z); auto.
Qed.

Lemma Array_sort_StronglySorted_on (l : list A) :
  Forall P l -> StronglySorted before (Array_sort comparefn l).
Proof.
  induction l as [| x l IH]; simpl; intros HP.
  - constructor.
  - pose proof (Forall_inv HP) as Hx.
    pose proof (Forall_inv_tail HP) as HPl.
    apply insert_StronglySorted_on; [exact Hx | | exact (IH HPl)].
    exact (Permutation_Forall (Array_sort_Permutation comparefn l) HPl).
Qed.

End ArraySortOn.

(** In a list ordered by [before], an element that stands before another
    is related to it. *)
Lemma StronglySorted_precedes {A : Type} (before : A -> A -> Prop)
    (l : list A) (a b : A) :
  StronglySorted before l -> precedes l a b -> before a b.
Proof.
  intros Hsorted (l1 & l2 & l3 & ->).
  induction l1 as [| x l1 IH]; simpl in Hsorted.
  - apply StronglySorted_inv in Hsorted as [_ Hall].
    rewrite Forall_forall in Hall. apply Hall.
    apply in_or_app. right. left. reflexivity.
  - apply StronglySorted_inv in Hsorted as [Hsorted _]. exact (IH Hsorted).
Qed.

(** ** The default order of the table *)

(** A sort key is a finite number or [Infinity]. *)
Lemma ratio_key_cases (x : Row) :
  (exists k : R, ratio_key x = Fin k) \/ ratio_key x = PosInfinity.
Proof.
  unfold ratio_key, nullish_coalesce.
  destruct (ratio x); simpl; eauto.
Qed.

Ltac case_Rlt :=
  unfold Rlt_bool in *;
  repeat match goal with
         | H : context [Rlt_dec ?x ?y] |- _ => destruct (Rlt_dec x y)
         | |- context [Rlt_dec ?x ?y] => destruct (Rlt_dec x y)
         end;
  try reflexivity; try discriminate; try lra.

Lemma by_ratio_descending_total (x y : Row) :
  sorts_after by_ratio_descending x y = true ->
  sorts_after by_ratio_descending y x = false.
Proof.
  unfold sorts_after, by_ratio_descending.
  destruct (ratio_key_cases x) as [[kx ->] | ->],
           (ratio_key_cases y) as [[ky ->] | ->]; simpl; intros H;
    try reflexivity; try discriminate; case_Rlt.
Qed.

Lemma by_ratio_descending_trans (x y z : Row) :
  sorts_after by_ratio_descending x y = false ->
  sorts_after by_ratio_descending y z = false ->
  sorts_after by_ratio_descending x z = false.
Proof.
  unfold sorts_after, by_ratio_descending.
  destruct (ratio_key_cases x) as [[kx ->] | ->],
           (ratio_key_cases y) as [[ky ->] | ->],
           (ratio_key_cases z) as [[kz ->] | ->]; simpl; intros H1 H2;
    try reflexivity; try discriminate; case_Rlt.
Qed.

(** The rows in their default order: no row is put after a later one by
    the comparator. *)
Lemma default_order_sorted (rows : list Row) :
  StronglySorted (fun a b => sorts_after by_ratio_descending a b = false)
    (Array_sort by_ratio_descending rows).
Proof.
  apply Array_sort_StronglySorted.
  - auto.
  - apply by_ratio_descending_total.
  - apply by_ratio_descending_trans.
Qed.

(** What the comparator says of two rows, by their ratios. *)
Lemma not_after_undefined (a b : Row) :
  sorts_after by_ratio_descending a b = false ->
  loosely_null (ratio a) = true -> ~ defined_non_negative (ratio b).
Proof.
  unfold sorts_after, by_ratio_descending, ratio_key, nullish_coalesce.
  intros Hcmp Ha. rewrite Ha in Hcmp.
  destruct (ratio b) as [| | x |]; simpl in *; auto; try discriminate.
  intros Hx. case_Rlt.
Qed.

Lemma not_after_defined (a b : Row) :
  sorts_after by_ratio_descending a b = false ->
  defined (ratio a) -> defined (ratio b) -> value_ge (ratio a) (ratio b).
Proof.
  unfold sorts_after, by_ratio_descending, ratio_key, nullish_coalesce, defined.
  intros Hcmp Ha Hb. rewrite Ha, Hb in Hcmp.
  destruct (ratio a) as [| | x |], (ratio b) as [| | y |];
    simpl in *; auto; try discriminate.
  case_Rlt.
Qed.

(** C7.  [_prepareAndRenderTable] stores and renders the projected rows in
    descending order of the key [ratio ?? -1]: the comparator
    [(b.ratio ?? -1) - (a.ratio ?? -1)] is never positive for a row [a]
    standing before a row [b].  Hence no row with an undefined ([null] or
    [undefined]) ratio stands before a row with a defined non-negative
    ratio, and of two rows with defined ratios the earlier one has the
    larger or equal ratio. *)
Theorem default_order_descending_by_ratio (this : HousingCostMap) :
  let result := _prepareAndRenderTable this in
  let rows := snd result in
  sortedDataList (fst result) = rows /\
  Permutation
    (map (table_row this) (filter (has_table_row this) (housingData this)))
    rows /\
  (forall a b : Row,
      precedes rows a b ->
      number_gt0 (number_sub (ratio_key b) (ratio_key a)) = false) /\
  (forall a b : Row,
      precedes rows a b ->
      loosely_null (ratio a) = true -> ~ defined_non_negative (ratio b)) /\
  (forall a b : Row,
      precedes rows a b ->
      defined (ratio a) -> defined (ratio b) ->
      value_ge (ratio a) (ratio b)).
Proof.
  cbv zeta. unfold _prepareAndRenderTable. cbn [fst snd sortedDataList
    set_headers set_sortedDataList].
  set (rows := map (table_row this) (filter (has_table_row this) (housingData this))).
  pose proof (default_order_sorted rows) as Hsorted.
  split; [reflexivity |]. split; [apply Array_sort_Permutation |].
  repeat split.
  - intros a b Hab.
    exact (StronglySorted_precedes _ _ a b Hsorted Hab).
  - intros a b Hab.
    apply not_after_undefined.
    exact (StronglySorted_precedes _ _ a b Hsorted Hab).
  - intros a b Hab.
    apply not_after_defined.
    exact (StronglySorted_precedes _ _ a b Hsorted Hab).
Qed.

(** The default order on three rows: [Infinity] first, then 0.8, then the
    row without a ratio. *)
Lemma default_order_example :
  Array_sort by_ratio_descending
    [row_without_ratio; row_with_ratio; row_with_infinite_ratio]
  = [row_with_infinite_ratio; row_with_ratio; row_without_ratio].
Proof.
  cbn [Array_sort insert].
  assert (H1 : sorts_after by_ratio_descending row_with_ratio
                 row_with_infinite_ratio = true) by reflexivity.
  assert (H2 : sorts_after by_ratio_descending row_without_ratio
                 row_with_infinite_ratio = true) by reflexivity.
  assert (H3 : sorts_after by_ratio_descending row_without_ratio
                 row_with_ratio = true).
  { unfold sorts_after, by_ratio_descending, ratio_key. cbn.
    apply Rlt_bool_true. lra. }
  rewrite H1. cbn [insert]. rewrite H2. cbn [insert]. rewrite H3. reflexivity.
Qed.

(** ** The column sort *)

Section SortColumnFacts.

Variable localeCompare : string -> string -> R.
Variable StringToNumber : string -> number.

Local Abbreviation comparator := (by_column localeCompare StringToNumber).

(** For the key ['suburb'], [valA] is the row's [suburb] string. *)
Lemma get_property_suburb (item : Row) :
  get_property "suburb" item = PString (suburb item).
Proof. reflexivity. Qed.

(** A row whose value is null is put after any row it is compared with. *)
Lemma by_column_null_left (key : string) (direction : R) (a b : Row) :
  null_in key a = true -> sorts_after (comparator key direction) a b = true.
Proof.
  unfold null_in, sorts_after, by_column.
  intros ->. cbn. apply Rlt_bool_true. lra.
Qed.

(** A row whose value is defined stays before a row whose value is null. *)
Lemma by_column_null_right (key : string) (direction : R) (a b : Row) :
  null_in key a = false -> null_in key b = true ->
  sorts_after (comparator key direction) a b = false.
Proof.
  unfold null_in, sorts_after, by_column.
  intros -> ->. cbn. apply Rlt_bool_false. lra.
Qed.

(** Between rows whose values are both defined the comparator is the
    locale comparison of the two suburb strings for the ['suburb'] column
    and the numeric difference for every other column, times the
    direction. *)
Lemma by_column_defined (key : string) (direction : R) (a b : Row) :
  null_in key a = false -> null_in key b = false ->
  comparator key direction a b
  = if String.eqb key "suburb" then
      number_mul (Fin (localeCompare (suburb a) (suburb b))) (Fin direction)
    else
      number_mul
        (number_sub (property_number StringToNumber (get_property key a))
           (property_number StringToNumber (get_property key b)))
        (Fin direction).
Proof.
  unfold null_in, by_column. intros -> ->. reflexivity.
Qed.

(** After the sort no row with a null value stands before a row with a
    defined one. *)
Lemma column_sort_nulls_last (key : string) (direction : R) (l : list Row) :
  StronglySorted (fun a b => null_in key a = true -> null_in key b = true)
    (Array_sort (comparator key direction) l).
Proof.
  apply Array_sort_StronglySorted.
  - intros x y Hcmp Hx.
    rewrite (by_column_null_left key direction x y Hx) in Hcmp. discriminate.
  - intros x y Hcmp Hy.
    destruct (null_in key x) eqn:Hx; [reflexivity |].
    rewrite (by_column_null_right key direction x y Hx Hy) in Hcmp.
    discriminate.
  - auto.
Qed.

(** Every column but ['postcode'] and ['suburb'] holds values. *)
Lemma get_property_value (key : string) (item : Row) :
  key <> "postcode" -> key <> "suburb" ->
  get_property key item = PValue (column_value key item).
Proof.
  intros Hp Hs. apply String.eqb_neq in Hp, Hs.
  unfold column_value, get_property. rewrite Hp, Hs.
  repeat match goal with
         | |- context [String.eqb key ?k] => destruct (String.eqb key k)
         end; reflexivity.
Qed.

(** The sign of [(v - w) * direction] for two defined values. *)
Lemma difference_not_positive (direction : R) (v w : value) :
  direction = 1 \/ direction = -1 -> defined v -> defined w ->
  number_gt0
    (number_mul (number_sub (ToNumber v) (ToNumber w)) (Fin direction))
  = false ->
  in_direction direction v w.
Proof.
  unfold defined, in_direction.
  intros [-> | ->] Hv Hw; destruct v as [| | x |], w as [| | y |];
    try discriminate; cbn; unfold scale_infinity, Req_bool;
    repeat match goal with
           | |- context [Req_dec_T ?a ?b] => destruct (Req_dec_T a b); try lra
           end;
    case_Rlt; cbn; intros; try discriminate; try exact I; lra.
Qed.

Lemma difference_positive (direction : R) (v w : value) :
  direction = 1 \/ direction = -1 -> defined v -> defined w ->
  number_gt0
    (number_mul (number_sub (ToNumber v) (ToNumber w)) (Fin direction))
  = true ->
  in_direction direction w v.
Proof.
  unfold defined, in_direction.
  intros [-> | ->] Hv Hw; destruct v as [| | x |], w as [| | y |];
    try discriminate; cbn; unfold scale_infinity, Req_bool;
    repeat match goal with
           | |- context [Req_dec_T ?a ?b] => destruct (Req_dec_T a b); try lra
           end;
    case_Rlt; cbn; intros; try discriminate; try exact I; lra.
Qed.

Lemma in_direction_trans (direction : R) (u v w : value) :
  defined u -> defined v -> defined w ->
  in_direction direction u v -> in_direction direction v w ->
  in_direction direction u w.
Proof.
  unfold defined, in_direction.
  destruct (Rlt_bool 0 direction), u as [| | x |], v as [| | y |],
    w as [| | z |]; cbn; intros; try discriminate; try exact I;
    try contradiction; lra.
Qed.

(** After a sort by a numeric column the rows with defined values stand
    in the order of the direction, before the rows with null values. *)
Lemma column_sort_numeric_order (key : string) (direction : R)
    (l : list Row) :
  key <> "postcode" -> key <> "suburb" ->
  direction = 1 \/ direction = -1 ->
  StronglySorted
    (fun a b =>
       (null_in key a = true -> null_in key b = true) /\
       (null_in key a = false -> null_in key b = false ->
        in_direction direction (column_value key a) (column_value key b)))
    (Array_sort (comparator key direction) l).
Proof.
  intros Hp Hs Hdir.
  assert (Hdefined : forall x, null_in key x = false ->
                               defined (column_value key x)).
  { intros x. unfold null_in, defined.
    now rewrite (get_property_value key x Hp Hs). }
  assert (Hcmp : forall x y,
             null_in key x = false -> null_in key y = false ->
             sorts_after (comparator key direction) x y
             = number_gt0
                 (number_mul
                    (number_sub (ToNumber (column_value key x))
                       (ToNumber (column_value key y))) (Fin direction))).
  { intros x y Hx Hy. unfold sorts_after.
    rewrite (by_column_defined key direction x y Hx Hy).
    rewrite (proj2 (String.eqb_neq key "suburb") Hs).
    now rewrite !get_property_value by assumption. }
  apply Array_sort_StronglySorted.
  - intros x y Hxy. split.
    + intros Hx.
      rewrite (by_column_null_left key direction x y Hx) in Hxy.
      discriminate.
    + intros Hx Hy. rewrite (Hcmp x y Hx Hy) in Hxy.
      apply difference_not_positive; auto.
  - intros x y Hxy. split.
    + intros Hy. destruct (null_in key x) eqn:Hx; [reflexivity |].
      rewrite (by_column_null_right key direction x y Hx Hy) in Hxy.
      discriminate.
    + intros Hy Hx. rewrite (Hcmp x y Hx Hy) in Hxy.
      apply difference_positive; auto.
  - intros x y z [Hxy1 Hxy2] [Hyz1 Hyz2]. split.
    + auto.
    + intros Hx Hz.
      destruct (null_in key y) eqn:Hy.
      * rewrite (Hyz1 eq_refl) in Hz. discriminate.
      * apply in_direction_trans with (column_value key y); auto.
Qed.

(** A sort by the ratio column in either direction: the row without a
    ratio comes last both times. *)
Lemma column_sort_example :
  Array_sort (comparator "ratio" 1)
    [row_without_ratio; row_with_infinite_ratio; row_with_ratio]
  = [row_with_ratio; row_with_infinite_ratio; row_without_ratio] /\
  Array_sort (comparator "ratio" (-1))
    [row_without_ratio; row_with_infinite_ratio; row_with_ratio]
  = [row_with_infinite_ratio; row_with_ratio; row_without_ratio].
Proof.
  assert (Hnull : forall d b,
             sorts_after (comparator "ratio" d) row_without_ratio b = true)
    by (intros d b; now apply by_column_null_left).
  assert (Hup : sorts_after (comparator "ratio" 1) row_with_infinite_ratio
                  row_with_ratio = true).
  { unfold sorts_after, by_column. cbn.
    unfold scale_infinity. rewrite Req_bool_false, Rlt_bool_true by lra.
    reflexivity. }
  assert (Hdown : sorts_after (comparator "ratio" (-1))
                    row_with_infinite_ratio row_with_ratio = false).
  { unfold sorts_after, by_column. cbn.
    unfold scale_infinity. rewrite Req_bool_false, Rlt_bool_false by lra.
    reflexivity. }
  split; cbn [Array_sort insert].
  - rewrite Hup. cbn [insert]. rewrite !Hnull. reflexivity.
  - rewrite Hdown. cbn [insert]. rewrite !Hnull. reflexivity.
Qed.

(** The comparator on the ['suburb'] column, where no value is null. *)
Lemma by_column_suburb (direction : R) (a b : Row) :
  sorts_after (comparator "suburb" direction) a b
  = Rlt_bool 0 (localeCompare (suburb a) (suburb b) * direction).
Proof. reflexivity. Qed.

(** The comparator on the ['postcode'] column: the two strings go through
    [valA - valB], which converts them to numbers. *)
Lemma by_column_postcode (direction : R) (a b : Row) (na nb : R) :
  StringToNumber (postcode a) = Fin na ->
  StringToNumber (postcode b) = Fin nb ->
  sorts_after (comparator "postcode" direction) a b
  = Rlt_bool 0 ((na - nb) * direction).
Proof.
  intros Ha Hb. unfold sorts_after, by_column.
  cbn [get_property String.eqb Ascii.eqb Bool.eqb property_null
       property_number].
  rewrite Ha, Hb. reflexivity.
Qed.

(** After a sort by the ['suburb'] column the rows stand in the order of
    [localeCompare], reversed for direction -1. *)
Lemma column_sort_suburb_order (direction : R) (l : list Row) :
  consistent_comparator localeCompare ->
  direction = 1 \/ direction = -1 ->
  StronglySorted
    (fun a b => localeCompare (suburb a) (suburb b) * direction <= 0)
    (Array_sort (comparator "suburb" direction) l).
Proof.
  intros [Hswap Htrans] Hdir.
  assert (Hswap' : forall s t, localeCompare s t < 0 -> 0 < localeCompare t s)
    by (intros s t H; apply Hswap; exact H).
  assert (Hge : forall s t, 0 <= localeCompare s t -> localeCompare t s <= 0).
  { intros s t H. destruct (Rle_or_lt (localeCompare t s) 0) as [Hle | Hlt];
      [exact Hle |].
    apply Hswap in Hlt. lra. }
  assert (Hle : forall s t, localeCompare s t <= 0 -> 0 <= localeCompare t s).
  { intros s t H. destruct (Rle_or_lt 0 (localeCompare t s)) as [H0 | Hlt];
      [exact H0 |].
    apply Hswap' in Hlt. lra. }
  apply Array_sort_StronglySorted.
  - intros x y Hxy. rewrite by_column_suburb in Hxy.
    apply Rlt_bool_nspec in Hxy. exact Hxy.
  - intros x y Hxy. rewrite by_column_suburb in Hxy.
    apply Rlt_bool_spec in Hxy.
    destruct Hdir as [-> | ->].
    + assert (H : 0 < localeCompare (suburb x) (suburb y)) by lra.
      apply Hswap in H. lra.
    + assert (H : localeCompare (suburb x) (suburb y) < 0) by lra.
      apply Hswap' in H. lra.
  - intros x y z Hxy Hyz. destruct Hdir as [-> | ->].
    + assert (H : localeCompare (suburb x) (suburb z) <= 0)
        by (apply (Htrans _ (suburb y)); lra).
      lra.
    + assert (H : localeCompare (suburb z) (suburb x) <= 0).
      { apply (Htrans _ (suburb y)); apply Hge; lra. }
      apply Hle in H. lra.
Qed.

(** After a sort by the ['postcode'] column of rows whose postal codes
    convert to finite numbers, the rows stand in the order of those
    numbers, reversed for direction -1. *)
Lemma column_sort_postcode_order (direction : R) (l : list Row) :
  direction = 1 \/ direction = -1 ->
  Forall (numeric_postcode StringToNumber) l ->
  StronglySorted
    (fun a b =>
       forall na nb : R,
         StringToNumber (postcode a) = Fin na ->
         StringToNumber (postcode b) = Fin nb ->
         (na - nb) * direction <= 0)
    (Array_sort (comparator "postcode" direction) l).
Proof.
  intros Hdir Hl.
  apply Array_sort_StronglySorted_on
    with (P := numeric_postcode StringToNumber); [| | | exact Hl].
  - intros x y _ _ Hxy nx ny Hx Hy.
    rewrite (by_column_postcode direction x y nx ny Hx Hy) in Hxy.
    apply Rlt_bool_nspec in Hxy. exact Hxy.
  - intros x y _ _ Hxy ny nx Hy Hx.
    rewrite (by_column_postcode direction x y nx ny Hx Hy) in Hxy.
    apply Rlt_bool_spec in Hxy. destruct Hdir as [-> | ->]; lra.
  - intros x y z _ [ny Hy] _ Hxy Hyz nx nz Hx Hz.
    specialize (Hxy nx ny Hx Hy). specialize (Hyz ny nz Hy Hz).
    destruct Hdir as [-> | ->]; lra.
Qed.

End SortColumnFacts.

(** The order by character codes is a consistent comparator. *)
Lemma compare_code_units_consistent : consistent_comparator compare_code_units.
Proof.
  unfold consistent_comparator, compare_code_units. split.
  - intros s t. rewrite (String.compare_antisym s t).
    destruct (String.compare t s); cbn; split; lra.
  - intros s t u.
    destruct (String.compare s t) eqn:Hst; try lra;
      destruct (String.compare t u) eqn:Htu; try lra; intros _ _.
    + apply String.compare_eq_iff in Hst, Htu. rewrite Hst, Htu.
      pose proof (proj2 (OrderedTypeEx.String_as_OT.cmp_eq u u) eq_refl) as Huu.
      unfold OrderedTypeEx.String_as_OT.cmp in Huu. rewrite Huu. lra.
    + apply String.compare_eq_iff in Hst. subst. rewrite Htu. lra.
    + apply String.compare_eq_iff in Htu. subst. rewrite Hst. lra.
    + apply OrderedTypeEx.String_as_OT.cmp_lt in Hst, Htu.
      pose proof (OrderedTypeEx.String_as_OT.lt_trans _ _ _ Hst Htu) as Hsu.
      apply OrderedTypeEx.String_as_OT.cmp_lt in Hsu.
      unfold OrderedTypeEx.String_as_OT.cmp in Hsu. rewrite Hsu. lra.
Qed.

(** A sort by the ['suburb'] column under that comparator, in either
    direction. *)
Lemma column_sort_suburb_example (StringToNumber : string -> number) :
  Array_sort (by_column compare_code_units StringToNumber "suburb" 1)
    [row_with_infinite_ratio; row_with_ratio; row_without_ratio]
  = [row_without_ratio; row_with_ratio; row_with_infinite_ratio] /\
  Array_sort (by_column compare_code_units StringToNumber "suburb" (-1))
    [row_with_infinite_ratio; row_with_ratio; row_without_ratio]
  = [row_with_infinite_ratio; row_with_ratio; row_without_ratio].
Proof.
  split; cbn [Array_sort insert]; rewrite !by_column_suburb;
    unfold compare_code_units; cbn;
    repeat (first [rewrite Rlt_bool_true by lra | rewrite Rlt_bool_false by lra];
            cbn);
    reflexivity.
Qed.

(** C8 (as amended).  [_sortColumn(key)] sorts with direction -1 when the
    header carries [sorted-asc] and 1 otherwise, flips that class, and
    stores and renders a rearrangement of the rows.  In either direction,
    and for every column, no row whose value in the column is [null] or
    [undefined] stands before a row whose value is defined.  Only the
    ['suburb'] column is ordered by [localeCompare]: its rows stand in
    locale order, reversed for direction -1.  Every other column is ordered
    by the numeric difference, the ['postcode'] column included, whose
    strings are converted to numbers: its rows stand in the order of those
    numbers when each postal code converts to a finite number, and the
    rows with defined values of a numeric column stand in ascending order
    for direction 1 and in descending order for direction -1. *)
Theorem column_sort_puts_null_values_last
    (localeCompare : string -> string -> R)
    (StringToNumber : string -> number)
    (key : string) (this : HousingCostMap) :
  let result := _sortColumn localeCompare StringToNumber key this in
  let rows := snd result in
  let isAsc := sorted_asc (headers this) key in
  let direction := if isAsc then -1 else 1 in
  sortedDataList (fst result) = rows /\
  sorted_asc (headers (fst result)) key = negb isAsc /\
  Permutation (sortedDataList this) rows /\
  (forall a b : Row,
      precedes rows a b -> null_in key a = true -> null_in key b = true) /\
  (key = "suburb" -> consistent_comparator localeCompare ->
   forall a b : Row,
     precedes rows a b ->
     localeCompare (suburb a) (suburb b) * direction <= 0) /\
  (key = "postcode" ->
   Forall (numeric_postcode StringToNumber) (sortedDataList this) ->
   forall (a b : Row) (na nb : R),
     precedes rows a b ->
     StringToNumber (postcode a) = Fin na ->
     StringToNumber (postcode b) = Fin nb ->
     (na - nb) * direction <= 0) /\
  (key <> "postcode" -> key <> "suburb" ->
   forall a b : Row,
     precedes rows a b -> null_in key a = false -> null_in key b = false ->
     if isAsc
     then value_ge (column_value key a) (column_value key b)
     else value_ge (column_value key b) (column_value key a)).
Proof.
  cbv zeta. unfold _sortColumn.
  cbn [fst snd sortedDataList headers set_headers set_sortedDataList sorted_asc].
  rewrite String.eqb_refl.
  set (direction := if sorted_asc (headers this) key then -1 else 1).
  assert (Hdir : direction = 1 \/ direction = -1)
    by (unfold direction; destruct (sorted_asc (headers this) key); auto).
  split; [reflexivity |]. split; [reflexivity |].
  split; [apply Array_sort_Permutation |].
  split; [| split; [| split]].
  - intros a b Hab.
    exact (StronglySorted_precedes _ _ a b
             (column_sort_nulls_last localeCompare StringToNumber key direction
                (sortedDataList this)) Hab).
  - intros -> Hconsistent a b Hab.
    exact (StronglySorted_precedes _ _ a b
             (column_sort_suburb_order localeCompare StringToNumber direction
                (sortedDataList this) Hconsistent Hdir) Hab).
  - intros -> Hnumeric a b na nb Hab.
    exact (StronglySorted_precedes _ _ a b
             (column_sort_postcode_order localeCompare StringToNumber direction
                (sortedDataList this) Hdir Hnumeric) Hab na nb).
  - intros Hp Hs a b Hab Ha Hb.
    pose proof (StronglySorted_precedes _ _ a b
                  (column_sort_numeric_order localeCompare StringToNumber key
                     direction (sortedDataList this) Hp Hs Hdir) Hab)
      as [_ Horder].
    specialize (Horder Ha Hb). unfold in_direction, direction in Horder.
    destruct (sorted_asc (headers this) key).
    + rewrite Rlt_bool_false in Horder by lra. exact Horder.
    + rewrite Rlt_bool_true in Horder by lra. exact Horder.
Qed.

(** C8 (as stated) fails on the ['postcode'] column, which holds strings
    and is compared by numeric difference.  Whenever ['9'] comes after
    ['10'] in locale order, and the two strings convert to the numbers 9
    and 10, the comparison the claim prescribes puts the row of postal code
    9 after the row of postal code 10, and the comparator of [_sortColumn]
    does not: a first click on the postcode header turns the table 10, 9
    into 9, 10. *)
Lemma postcode_column_is_compared_numerically :
  get_property "postcode" row_postcode_9 = PString "9" /\
  get_property "postcode" row_postcode_10 = PString "10" /\
  (forall (localeCompare : string -> string -> R)
          (StringToNumber : string -> number),
      0 < localeCompare "9" "10" ->
      StringToNumber "9" = Fin 9 -> StringToNumber "10" = Fin 10 ->
      sorts_after (spec_by_column localeCompare "postcode" 1)
        row_postcode_9 row_postcode_10 = true /\
      sorts_after (by_column localeCompare StringToNumber "postcode" 1)
        row_postcode_9 row_postcode_10 = false /\
      snd (_sortColumn localeCompare StringToNumber "postcode" table_10_then_9)
      = [row_postcode_9; row_postcode_10] /\
      ~ columns_compared_as_specified localeCompare StringToNumber).
Proof.
  split; [reflexivity |]. split; [reflexivity |].
  intros localeCompare StringToNumber Hlocale H9 H10.
  assert (Hspec : sorts_after (spec_by_column localeCompare "postcode" 1)
                    row_postcode_9 row_postcode_10 = true).
  { unfold sorts_after, spec_by_column. cbn.
    apply Rlt_bool_true. lra. }
  assert (Hcode : sorts_after
                    (by_column localeCompare StringToNumber "postcode" 1)
                    row_postcode_9 row_postcode_10 = false).
  { rewrite (by_column_postcode localeCompare StringToNumber 1
               row_postcode_9 row_postcode_10 9 10 H9 H10).
    apply Rlt_bool_false. lra. }
  assert (Hback : sorts_after
                    (by_column localeCompare StringToNumber "postcode" 1)
                    row_postcode_10 row_postcode_9 = true).
  { rewrite (by_column_postcode localeCompare StringToNumber 1
               row_postcode_10 row_postcode_9 10 9 H10 H9).
    apply Rlt_bool_true. lra. }
  split; [exact Hspec |]. split; [exact Hcode |]. split.
  - unfold _sortColumn.
    cbn [snd table_10_then_9 headers sorted_asc sortedDataList set_headers
         set_sortedDataList Array_sort insert].
    rewrite Hback. reflexivity.
  - intros H.
    specialize (H "postcode" 1 row_postcode_9 row_postcode_10
                  (or_introl eq_refl) eq_refl eq_refl).
    rewrite Hspec, Hcode in H. discriminate.
Qed.

(** ** The search filter *)

Lemma prefix_spec (p s : string) :
  String.prefix p s = true <-> exists t : string, s = p ++ t.
Proof.
  revert s. induction p as [| a p IH]; intros s; simpl.
  - destruct s; simpl; split; eauto.
  - destruct s as [| b s]; simpl.
    + split; [discriminate | intros (t & [=])].
    + destruct (ascii_dec a b) as [-> | Hab].
      * rewrite IH. split; intros (t & Ht); exists t.
        -- now rewrite Ht.
        -- now injection Ht.
      * split; [discriminate | intros (t & [= <- _]); contradiction].
Qed.

(** [includes] decides [Substring]. *)
Lemma includes_spec (s sub : string) :
  includes s sub = true <-> Substring sub s.
Proof.
  unfold Substring. induction s as [| c s IH]; cbn [includes].
  - rewrite orb_false_r, prefix_spec. split.
    + intros (t & Ht). exists EmptyString, t. exact Ht.
    + intros ([| ? ?] & t & Ht); [exists t; exact Ht | discriminate].
  - rewrite orb_true_iff, prefix_spec, IH. split.
    + intros [(t & Ht) | (u & t & Ht)].
      * exists EmptyString, t. exact Ht.
      * exists (String c u), t. simpl. now rewrite Ht.
    + intros ([| d u] & t & Ht); simpl in Ht.
      * left. exists t. exact Ht.
      * right. exists u, t. now injection Ht.
Qed.

(** [filter] keeps the order of the rows it keeps. *)
Lemma precedes_filter {A : Type} (f : A -> bool) (l : list A) (a b : A) :
  precedes (filter f l) a b -> precedes l a b.
Proof.
  unfold precedes. revert a b.
  induction l as [| x l IH]; intros a b (l1 & l2 & l3 & H); simpl in H.
  - destruct l1; discriminate.
  - destruct (f x) eqn:Hfx.
    + destruct l1 as [| y l1]; simpl in H.
      * injection H as <- H.
        assert (Hb : In b (filter f l))
          by (rewrite H; apply in_or_app; right; left; reflexivity).
        apply filter_In in Hb as [Hb _].
        apply in_split in Hb as (m1 & m2 & ->).
        exists [], m1, m2. reflexivity.
      * injection H as <- H.
        destruct (IH a b) as (m1 & m2 & m3 & ->); [eauto |].
        exists (x :: m1), m2, m3. reflexivity.
    + destruct (IH a b) as (m1 & m2 & m3 & ->); [eauto |].
      exists (x :: m1), m2, m3. reflexivity.
Qed.

Lemma filter_matches_spec (lowerQuery : string) (item : Row) :
  filter_matches lowerQuery item = true <->
  Substring lowerQuery (postcode item) \/
  Substring lowerQuery (toLowerCase (suburb item)).
Proof.
  unfold filter_matches. now rewrite orb_true_iff, !includes_spec.
Qed.

(** C9 (as amended).  [_filterTable(query)] leaves [this.sortedDataList]
    and the rest of the state as they were and renders exactly the stored
    rows in which the lower-cased query with its surrounding white space
    trimmed off occurs, either in the postal code as it is written or in the
    lower-cased label; the rendered rows keep the order they have in the
    stored list.  For a query without surrounding white space and postal
    codes without capital letters these are the rows whose postal code or
    label contains the query, ignoring case. *)
Theorem filter_selects_rows_containing_trimmed_query
    (query : string) (this : HousingCostMap) :
  let result := _filterTable query this in
  let visible := snd result in
  let lowerQuery := trim (toLowerCase query) in
  fst result = this /\
  (forall item : Row,
      In item visible <->
      In item (sortedDataList this) /\
      (Substring lowerQuery (postcode item) \/
       Substring lowerQuery (toLowerCase (suburb item)))) /\
  visible
  = filter
      (fun item =>
         includes (postcode item) lowerQuery ||
         includes (toLowerCase (suburb item)) lowerQuery)
      (sortedDataList this) /\
  (forall a b : Row,
      precedes visible a b -> precedes (sortedDataList this) a b) /\
  (lowerQuery = toLowerCase query ->
   Forall (fun item => toLowerCase (postcode item) = postcode item)
     (sortedDataList this) ->
   filter_selects_rows_containing query this).
Proof.
  cbv zeta. unfold _filterTable. cbn [fst snd].
  assert (Hin : forall item : Row,
             In item (filter (filter_matches (trim (toLowerCase query)))
                        (sortedDataList this)) <->
             In item (sortedDataList this) /\
             (Substring (trim (toLowerCase query)) (postcode item) \/
              Substring (trim (toLowerCase query)) (toLowerCase (suburb item)))).
  { intros item. now rewrite filter_In, filter_matches_spec. }
  split; [reflexivity |]. split; [exact Hin |]. split; [reflexivity |].
  split.
  - intros a b. apply precedes_filter.
  - intros Htrim Hcodes item. unfold _filterTable. cbn [snd].
    rewrite Hin, Htrim. unfold contains_ignoring_case.
    split; intros [Hitem Hmatch]; (split; [exact Hitem |]).
    + rewrite Forall_forall in Hcodes. now rewrite (Hcodes item Hitem).
    + rewrite Forall_forall in Hcodes.
      now rewrite (Hcodes item Hitem) in Hmatch.
Qed.

(** C9 (as stated) fails.  The query ["sydney "], with a space at its end,
    renders the row of Sydney 2000, although neither ["2000"] nor
    ["Sydney"] contains that query, even ignoring case. *)
Lemma trailing_space_in_query_is_ignored :
  snd (_filterTable "sydney " sydney_table) = [row_with_infinite_ratio] /\
  ~ contains_ignoring_case (postcode row_with_infinite_ratio) "sydney " /\
  ~ contains_ignoring_case (suburb row_with_infinite_ratio) "sydney " /\
  ~ filter_selects_rows_containing "sydney " sydney_table.
Proof.
  assert (Hp : ~ contains_ignoring_case (postcode row_with_infinite_ratio)
                 "sydney ").
  { unfold contains_ignoring_case. rewrite <- includes_spec.
    vm_compute. discriminate. }
  assert (Hs : ~ contains_ignoring_case (suburb row_with_infinite_ratio)
                 "sydney ").
  { unfold contains_ignoring_case. rewrite <- includes_spec.
    vm_compute. discriminate. }
  assert (Hv : snd (_filterTable "sydney " sydney_table)
               = [row_with_infinite_ratio]) by reflexivity.
  repeat split; try assumption.
  intros H. destruct (H row_with_infinite_ratio) as [Hsel _].
  rewrite Hv in Hsel. destruct Hsel as [_ [Hc | Hc]]; [left; reflexivity | |];
    contradiction.
Qed.

(* ================================================================== *)
(** * Part III.  Further properties of the engine                       *)
(* ================================================================== *)

(** ** Recomputing under a changing configuration *)

(** A pass overwrites whatever an earlier pass wrote. *)
Lemma pass_absorbs_earlier_pass
    (inputs1 inputs2 : Controls)
    (deposit_type1 mortgage_type1 deposit_type2 mortgage_type2 : string)
    (d : AreaRecord) :
  _updateAllRatios_area inputs2 deposit_type2 mortgage_type2
    (_updateAllRatios_area inputs1 deposit_type1 mortgage_type1 d)
  = _updateAllRatios_area inputs2 deposit_type2 mortgage_type2 d.
Proof.
  set (d1 := _updateAllRatios_area inputs1 deposit_type1 mortgage_type1 d).
  destruct (cell_truthy (yearly_median_sales_price_000s d)) eqn:Hd.
  - pose proof (pass_same_raw inputs1 deposit_type1 mortgage_type1 d) as Hraw.
    fold d1 in Hraw.
    assert (Hd1 : cell_truthy (yearly_median_sales_price_000s d1) = true)
      by (destruct Hraw as (_ & <- & _); exact Hd).
    apply AreaRecord_ext.
    + destruct (pass_same_raw inputs2 deposit_type2 mortgage_type2 d1)
        as (A1 & A2 & A3 & A4 & A5 & A6 & A7).
      destruct (pass_same_raw inputs2 deposit_type2 mortgage_type2 d)
        as (B1 & B2 & B3 & B4 & B5 & B6 & B7).
      destruct Hraw as (C1 & C2 & C3 & C4 & C5 & C6 & C7).
      unfold same_raw. repeat split; congruence.
    + destruct (pass_depends_on_raw inputs2 deposit_type2 mortgage_type2 d1 d
                  (same_raw_sym _ _ Hraw) Hd1) as (E1 & E2 & E3 & E4 & E5).
      unfold computed_fields. rewrite E1, E2, E3, E4.
      destruct (cell_truthy (yearly_third_quartile_sales_000s d1)) eqn:Hq.
      * now rewrite (E5 eq_refl).
      * assert (Hq' : cell_truthy (yearly_third_quartile_sales_000s d) = false)
          by (destruct Hraw as (_ & _ & _ & _ & -> & _); exact Hq).
        rewrite (pass_third_quartile inputs2 deposit_type2 mortgage_type2 d1 Hd1),
          Hq.
        rewrite (pass_third_quartile inputs2 deposit_type2 mortgage_type2 d Hd),
          Hq'.
        unfold d1.
        now rewrite (pass_third_quartile inputs1 deposit_type1 mortgage_type1 d
                       Hd), Hq'.
  - unfold d1. now rewrite (pass_skips inputs1 deposit_type1 mortgage_type1 d Hd).
Qed.

(** The records that get a table row, and what the row shows besides the
    computed figures, do not depend on the computed properties. *)
Lemma has_table_row_same_raw (this that : HousingCostMap) (d e : AreaRecord) :
  suburbLookup this = suburbLookup that -> same_raw d e ->
  has_table_row this d = has_table_row that e.
Proof.
  intros Hlookup (Hp & Hm & Hr & _).
  unfold has_table_row, lookup_suburbs. now rewrite Hlookup, Hp, Hm, Hr.
Qed.

Lemma filter_map {A B : Type} (f : B -> bool) (g : A -> B) (l : list A) :
  filter f (map g l) = map g (filter (fun a => f (g a)) l).
Proof.
  induction l as [| a l IH]; simpl; [reflexivity |].
  destruct (f (g a)); simpl; now rewrite IH.
Qed.

(** The rows [_prepareAndRenderTable] builds after a pass. *)
Lemma rows_after_pass (inputs : Controls) (this : HousingCostMap) :
  snd (updateMapAndTable inputs this)
  = Array_sort by_ratio_descending
      (map (fun d =>
              table_row this
                (_updateAllRatios_area inputs (depositType this)
                   (mortgageType this) d))
         (filter (has_table_row this) (housingData this))).
Proof.
  unfold updateMapAndTable, _prepareAndRenderTable, _updateAllRatios.
  cbn [snd housingData set_housingData]. f_equal.
  rewrite filter_map, map_map. f_equal.
  apply filter_ext. intros d.
  apply has_table_row_same_raw; [reflexivity |].
  apply same_raw_sym, pass_same_raw.
Qed.

(** X7.  The outcome of an update depends on the configuration in force
    and not on the configurations before it: a pass run after another pass
    leaves each record as if the earlier pass had never run, and switching
    the repayment type (or the deposit type) and then switching again
    yields the records and the table of the last switch alone. *)
Theorem update_forgets_earlier_configurations
    (inputs1 inputs2 : Controls) (type1 type2 : string)
    (this : HousingCostMap) :
  (forall (deposit_type1 mortgage_type1 deposit_type2 mortgage_type2 : string)
          (d : AreaRecord),
      _updateAllRatios_area inputs2 deposit_type2 mortgage_type2
        (_updateAllRatios_area inputs1 deposit_type1 mortgage_type1 d)
      = _updateAllRatios_area inputs2 deposit_type2 mortgage_type2 d) /\
  (let earlier := fst (_handleMortgageTypeChange inputs1 type1 this) in
   housingData (fst (_handleMortgageTypeChange inputs2 type2 earlier))
   = housingData (fst (_handleMortgageTypeChange inputs2 type2 this)) /\
   snd (_handleMortgageTypeChange inputs2 type2 earlier)
   = snd (_handleMortgageTypeChange inputs2 type2 this)) /\
  (let earlier := fst (_handleDepositTypeChange inputs1 type1 this) in
   housingData (fst (_handleDepositTypeChange inputs2 type2 earlier))
   = housingData (fst (_handleDepositTypeChange inputs2 type2 this)) /\
   snd (_handleDepositTypeChange inputs2 type2 earlier)
   = snd (_handleDepositTypeChange inputs2 type2 this)).
Proof.
  split; [intros; apply pass_absorbs_earlier_pass |].
  assert (Hmap : forall dt1 mt1 dt2 mt2 (l : list AreaRecord),
             map (_updateAllRatios_area inputs2 dt2 mt2)
               (map (_updateAllRatios_area inputs1 dt1 mt1) l)
             = map (_updateAllRatios_area inputs2 dt2 mt2) l).
  { intros. rewrite map_map. apply map_ext. intros d.
    apply pass_absorbs_earlier_pass. }
  split; cbv zeta;
    unfold _handleMortgageTypeChange, _handleDepositTypeChange,
      updateMapAndTable, _prepareAndRenderTable, _updateAllRatios;
    cbn [fst snd housingData depositType mortgageType suburbLookup
           set_housingData set_sortedDataList set_headers set_mortgageType
           set_depositType];
    rewrite Hmap; split; reflexivity.
Qed.

(** X8.  [_updateAllRatios] only writes computed properties: it keeps the
    number and the order of the records and every raw cell of every record,
    and it leaves the stored table rows, the suburb lookup, the two type
    settings and the header flags as they were; the table shows the new
    figures only once [_prepareAndRenderTable] has run. *)
Theorem updateAllRatios_writes_computed_properties_only
    (inputs : Controls) (this : HousingCostMap) :
  let this' := _updateAllRatios inputs this in
  Forall2 same_raw (housingData this) (housingData this') /\
  map Postcode (housingData this') = map Postcode (housingData this) /\
  sortedDataList this' = sortedDataList this /\
  suburbLookup this' = suburbLookup this /\
  depositType this' = depositType this /\
  mortgageType this' = mortgageType this /\
  headers this' = headers this.
Proof.
  cbv zeta. unfold _updateAllRatios. cbn.
  split; [| split; [| repeat split]].
  - induction (housingData this) as [| d l IH]; simpl; constructor.
    + apply pass_same_raw.
    + exact IH.
  - rewrite map_map. apply map_ext. intros d.
    symmetry. apply (pass_same_raw inputs (depositType this) (mortgageType this) d).
Qed.



(** ** The map colours *)

(** Comparisons between constants. *)
Ltac decide_Rle :=
  repeat match goal with
         | |- context [Rle_bool ?a ?b] =>
             first [ rewrite (Rle_bool_true a b) by lra
                   | rewrite (Rle_bool_false a b) by lra ]
         end.

Ltac decide_Rlt :=
  repeat match goal with
         | |- context [Rlt_bool ?a ?b] =>
             first [ rewrite (Rlt_bool_true a b) by lra
                   | rewrite (Rlt_bool_false a b) by lra ]
         end.

(** The colour of a finite ratio, band by band. *)
Lemma getColor_finite (r : R) :
  _getColor (Num r)
  = if Rle_bool 1.25 r then "#ef4444"
    else if Rle_bool 1.05 r then "#f97316"
    else if Rle_bool 0.95 r then "#fbbf24"
    else if Rle_bool 0.75 r then "#22c55e"
    else "#0f766e".
Proof.
  unfold _getColor. cbn. now rewrite orb_false_r.
Qed.

(** The colours of the five legend entries. *)
Lemma legend_colours :
  map Legend.color Legend.grades
  = ["#0f766e"; "#22c55e"; "#fbbf24"; "#f97316"; "#ef4444"].
Proof.
  unfold Legend.grades. cbn [map Legend.color].
  rewrite !getColor_finite. decide_Rle. reflexivity.
Qed.

(** X10.  The legend and the map agree on half-open bands: a finite ratio
    is painted in the colour of the first legend entry whose [limit] is
    above it, so the limits 0.75, 0.95, 1.05 and 1.25 themselves belong to
    the band above (a ratio of exactly 0.75 is not painted in the colour
    labelled "<= 0.75"); [Infinity] is painted in the colour of the last
    entry; and a larger ratio is never painted in the colour of an earlier
    entry. *)
Theorem legend_bands_match_the_map_colours :
  (forall r : R,
      exists g : Legend.Grade,
        find (below_limit r) Legend.grades = Some g /\
        _getColor (Num r) = Legend.color g) /\
  _getColor Infinity = Legend.color (last Legend.grades (Legend.mkGrade Null EmptyString EmptyString)) /\
  (exists second : Legend.Grade,
      nth_error Legend.grades 1 = Some second /\
      _getColor (Num 0.75) = Legend.color second) /\
  (forall (r1 r2 : R) (i1 i2 : nat) (g1 g2 : Legend.Grade),
      r1 <= r2 ->
      nth_error Legend.grades i1 = Some g1 ->
      nth_error Legend.grades i2 = Some g2 ->
      _getColor (Num r1) = Legend.color g1 ->
      _getColor (Num r2) = Legend.color g2 ->
      (i1 <= i2)%nat).
Proof.
  pose proof legend_colours as Hcolours.
  unfold Legend.grades in *. cbn [map Legend.color] in Hcolours.
  injection Hcolours as C1 C2 C3 C4 C5.
  split; [| split; [| split]].
  - intros r. rewrite (getColor_finite r). unfold below_limit.
    destruct (Rlt_dec r 0.75);
      [| destruct (Rlt_dec r 0.95);
         [| destruct (Rlt_dec r 1.05); [| destruct (Rlt_dec r 1.25)]]];
      repeat (progress (cbn [find Legend.limit]; decide_Rlt));
      eexists; (split; [reflexivity |]); cbn [Legend.color];
      rewrite ?C1, ?C2, ?C3, ?C4, ?C5; decide_Rle; reflexivity.
  - cbn [last Legend.color]. now rewrite C5.
  - eexists. split; [reflexivity |]. cbn [Legend.color].
    rewrite C2, getColor_finite. decide_Rle. reflexivity.
  - intros r1 r2 i1 i2 g1 g2 Hle H1 H2.
    rewrite (getColor_finite r1), (getColor_finite r2). intros G1 G2.
    assert (Hband : forall (r : R) (i : nat) (g : Legend.Grade),
               nth_error
                 [ {| Legend.limit := Num 0.75;
                      Legend.color := _getColor (Num 0.74);
                      Legend.label := "&le; 0.75 (Rent Much Cheaper)" |};
                   {| Legend.limit := Num 0.95;
                      Legend.color := _getColor (Num 0.85);
                      Legend.label := "0.75 &ndash; 0.95 (Rent Cheaper)" |};
                   {| Legend.limit := Num 1.05;
                      Legend.color := _getColor (Num 1.0);
                      Legend.label := "0.95 &ndash; 1.05 (Equal Cost)" |};
                   {| Legend.limit := Num 1.25;
                      Legend.color := _getColor (Num 1.15);
                      Legend.label := "1.05 &ndash; 1.25 (Mortgage Cheaper)" |};
                   {| Legend.limit := Infinity;
                      Legend.color := _getColor (Num 1.5);
                      Legend.label := "&ge; 1.25 (Mortgage Much Cheaper)" |} ]
                 i = Some g ->
               (if Rle_bool 1.25 r then "#ef4444"
                else if Rle_bool 1.05 r then "#f97316"
                else if Rle_bool 0.95 r then "#fbbf24"
                else if Rle_bool 0.75 r then "#22c55e"
                else "#0f766e") = Legend.color g ->
               (i = 0%nat /\ r < 0.75) \/ (i = 1%nat /\ 0.75 <= r < 0.95) \/
               (i = 2%nat /\ 0.95 <= r < 1.05) \/
               (i = 3%nat /\ 1.05 <= r < 1.25) \/ (i = 4%nat /\ 1.25 <= r)).
    { intros r i g Hi.
      do 5 (destruct i as [| i];
            [injection Hi as <-; cbn [Legend.color];
             rewrite ?C1, ?C2, ?C3, ?C4, ?C5;
             destruct (Rle_dec 1.25 r);
             [rewrite (Rle_bool_true 1.25 r) by lra
             | rewrite (Rle_bool_false 1.25 r) by lra;
               destruct (Rle_dec 1.05 r);
               [rewrite (Rle_bool_true 1.05 r) by lra
               | rewrite (Rle_bool_false 1.05 r) by lra;
                 destruct (Rle_dec 0.95 r);
                 [rewrite (Rle_bool_true 0.95 r) by lra
                 | rewrite (Rle_bool_false 0.95 r) by lra;
                   destruct (Rle_dec 0.75 r);
                   [rewrite (Rle_bool_true 0.75 r) by lra
                   | rewrite (Rle_bool_false 0.75 r) by lra]]]];
             intros Hc; try discriminate Hc; intuition lra
            | cbn [nth_error] in Hi]).
      destruct i; discriminate. }
    destruct (Hband r1 i1 g1 H1 G1) as [[-> ?] | [[-> ?] | [[-> ?] | [[-> ?] | [-> ?]]]]],
             (Hband r2 i2 g2 H2 G2) as [[-> ?] | [[-> ?] | [[-> ?] | [[-> ?] | [-> ?]]]]];
      try lia; exfalso; lra.
Qed.

(** Grey is the colour of a missing ratio and of nothing else. *)
Lemma getColor_grey (v : value) :
  _getColor v = "#ccc" <-> loosely_null v = true.
Proof.
  destruct v as [| | r |].
  - cbn. split; reflexivity.
  - cbn. split; reflexivity.
  - rewrite getColor_finite. cbn [loosely_null].
    destruct (Rle_bool 1.25 r), (Rle_bool 1.05 r), (Rle_bool 0.95 r),
      (Rle_bool 0.75 r); split; discriminate.
  - cbn. split; discriminate.
Qed.

Lemma housingData_get_after_pass
    (inputs : Controls) (this : HousingCostMap) (postcode : string) :
  housingData_get (_updateAllRatios inputs this) postcode
  = option_map
      (_updateAllRatios_area inputs (depositType this) (mortgageType this))
      (housingData_get this postcode).
Proof.
  unfold housingData_get, _updateAllRatios. cbn [housingData set_housingData].
  induction (housingData this) as [| d l IH]; simpl; [reflexivity |].
  destruct (pass_same_raw inputs (depositType this) (mortgageType this) d)
    as (<- & _).
  destruct (String.eqb (Postcode d) postcode); [reflexivity | exact IH].
Qed.

(** X12.  On records whose ratio was not set before, an area is painted
    grey after a recompute exactly when there is nothing to compare: no
    record under the postal code, no (non-zero) median sale price, or no
    (non-zero) rent. *)
Theorem grey_means_nothing_to_compare
    (inputs : Controls) (this : HousingCostMap) (postcode : string) :
  Forall (fun d => loosely_null (rent_vs_payment_ratio d) = true)
    (housingData this) ->
  (fillColor (_styleFeature (_updateAllRatios inputs this) postcode)
   = Some "#ccc" <->
   match housingData_get this postcode with
   | None => True
   | Some d =>
       cell_truthy (yearly_median_sales_price_000s d) = false \/
       cell_truthy (yearly_median_weekly_rent d) = false
   end).
Proof.
  intros Hfresh.
  unfold _styleFeature. cbn [fillColor].
  rewrite housingData_get_after_pass.
  destruct (housingData_get this postcode) as [d |] eqn:Hget;
    cbn [option_map]; [| split; reflexivity || auto].
  assert (Hd : loosely_null (rent_vs_payment_ratio d) = true).
  { rewrite Forall_forall in Hfresh. apply Hfresh.
    unfold housingData_get in Hget. apply find_some in Hget. apply Hget. }
  split.
  - intros [= Hcol]. apply getColor_grey in Hcol.
    destruct (cell_truthy (yearly_median_sales_price_000s d)) eqn:Hm;
      [| left; reflexivity].
    rewrite pass_ratio in Hcol by exact Hm. cbv zeta in Hcol.
    destruct (cell_truthy (yearly_median_weekly_rent d));
      [| right; reflexivity].
    cbn [negb] in Hcol. destruct (Rlt_bool _ _); discriminate.
  - intros Hcase. f_equal. apply getColor_grey.
    destruct (cell_truthy (yearly_median_sales_price_000s d)) eqn:Hm.
    + destruct Hcase as [Hc | Hc]; [discriminate |].
      rewrite pass_ratio by exact Hm. cbv zeta. now rewrite Hc.
    + now rewrite pass_skips.
Qed.

Lemma grey_means_nothing_to_compare_witness :
  Forall (fun d => loosely_null (rent_vs_payment_ratio d) = true)
    (housingData example_map) /\
  fillColor (_styleFeature (_updateAllRatios example_inputs example_map) "2020")
  = Some "#ccc" /\
  fillColor (_styleFeature (_updateAllRatios example_inputs example_map) "2999")
  = Some "#ccc".
Proof.
  assert (Hfresh :
    Forall (fun d => loosely_null (rent_vs_payment_ratio d) = true)
      (housingData example_map))
    by (repeat constructor).
  split; [exact Hfresh |]. split.
  - apply (grey_means_nothing_to_compare example_inputs example_map "2020"
             Hfresh).
    left. apply truthy_false. reflexivity.
  - apply (grey_means_nothing_to_compare example_inputs example_map "2999"
             Hfresh).
    exact I.
Defined.

(** ** The table after an update *)

Lemma listing_of_table_row_after_pass
    (inputs : Controls) (this : HousingCostMap) (d : AreaRecord) :
  listing
    (table_row this
       (_updateAllRatios_area inputs (depositType this) (mortgageType this) d))
  = listing (table_row this d).
Proof.
  destruct (pass_same_raw inputs (depositType this) (mortgageType this) d)
    as (Hp & _ & Hr & _).
  unfold listing, table_row. cbn [postcode suburb rent].
  now rewrite <- Hp, <- Hr.
Qed.

(** X13.  Which postal codes the table lists, and the label and rent shown
    for each, do not depend on the loan configuration: after any update the
    rows list exactly the records that have a suburb name, a rent or a sale
    price, once each; two updates with different inputs differ only in
    ratio, payment and order. *)
Theorem table_lists_the_same_areas_under_every_configuration
    (inputs1 inputs2 : Controls) (this : HousingCostMap) :
  Permutation
    (map listing (snd (updateMapAndTable inputs1 this)))
    (map (fun d => listing (table_row this d))
       (filter (has_table_row this) (housingData this))) /\
  Permutation
    (map listing (snd (updateMapAndTable inputs1 this)))
    (map listing (snd (updateMapAndTable inputs2 this))) /\
  List.length (snd (updateMapAndTable inputs1 this))
  = List.length (filter (has_table_row this) (housingData this)).
Proof.
  assert (Hperm : forall inputs : Controls,
             Permutation
               (map listing (snd (updateMapAndTable inputs this)))
               (map (fun d => listing (table_row this d))
                  (filter (has_table_row this) (housingData this)))).
  { intros inputs. rewrite rows_after_pass.
    eapply perm_trans.
    - apply Permutation_map, Permutation_sym, Array_sort_Permutation.
    - rewrite map_map.
      erewrite map_ext; [apply Permutation_refl |].
      intros d. apply listing_of_table_row_after_pass. }
  split; [apply Hperm |]. split.
  - eapply perm_trans; [apply Hperm | apply Permutation_sym, Hperm].
  - rewrite rows_after_pass.
    rewrite <- (Permutation_length (Array_sort_Permutation by_ratio_descending _)).
    apply List.length_map.
Qed.




(** ** The search box *)

Lemma toLowerCase_white_space (c : ascii) :
  is_white_space c = true -> lower_ascii c = c.
Proof.
  unfold is_white_space, lower_ascii. cbv zeta.
  intros H.
  destruct ((65 <=? nat_of_ascii c) && (nat_of_ascii c <=? 90))%nat eqn:Hup;
    [| reflexivity].
  exfalso.
  apply andb_true_iff in Hup as [H1 H2].
  apply Nat.leb_le in H1, H2.
  apply orb_true_iff in H as [H | H].
  - apply andb_true_iff in H as [_ H]. apply Nat.leb_le in H. lia.
  - apply Nat.eqb_eq in H. lia.
Qed.

Lemma trim_white_space (s : string) :
  Forall (fun c => is_white_space c = true) (list_ascii_of_string s) ->
  trim (toLowerCase s) = EmptyString.
Proof.
  unfold trim. induction s as [| c s IH]; intros Hall; [reflexivity |].
  cbn [list_ascii_of_string] in Hall.
  apply Forall_cons_iff in Hall as [Hc Hs].
  cbn [toLowerCase trimStart].
  rewrite (toLowerCase_white_space c Hc), Hc. exact (IH Hs).
Qed.

Lemma includes_empty (s : string) : includes s EmptyString = true.
Proof. destruct s; reflexivity. Qed.

Lemma filter_all {A : Type} (f : A -> bool) (l : list A) :
  (forall a, f a = true) -> filter f l = l.
Proof.
  intros Hf. induction l as [| a l IH]; simpl; [reflexivity |].
  now rewrite Hf, IH.
Qed.

(** X15.  A query that is empty or made of white space only renders every
    stored row, in the stored order. *)
Theorem blank_query_renders_every_row
    (query : string) (this : HousingCostMap) :
  Forall (fun c => is_white_space c = true) (list_ascii_of_string query) ->
  snd (_filterTable query this) = sortedDataList this.
Proof.
  intros Hblank. unfold _filterTable. cbn [snd].
  rewrite (trim_white_space query Hblank).
  apply filter_all. intros item. unfold filter_matches.
  now rewrite includes_empty.
Qed.

Lemma blank_query_renders_every_row_witness :
  Forall (fun c => is_white_space c = true) (list_ascii_of_string "  ") /\
  snd (_filterTable "  " sydney_table) = sortedDataList sydney_table.
Proof.
  assert (Hblank : Forall (fun c => is_white_space c = true)
                     (list_ascii_of_string "  "))
    by (repeat constructor).
  split; [exact Hblank |].
  apply (blank_query_renders_every_row "  " sydney_table Hblank).
Defined.

Lemma Substring_trans (a b c : string) :
  Substring a b -> Substring b c -> Substring a c.
Proof.
  intros (p & q & ->) (p' & q' & ->).
  exists (p' ++ p), (q ++ q').
  induction p' as [| x p' IH]; simpl.
  - induction p as [| y p IHp]; simpl.
    + induction a as [| z a IHa]; simpl; [reflexivity | now rewrite IHa].
    + now rewrite IHp.
  - now rewrite IH.
Qed.

(** X16.  Refining a query narrows the result: when the query as matched
    (lower-cased and trimmed) of one search occurs inside that of another,
    every row the longer query renders is rendered by the shorter one. *)
Theorem longer_query_renders_fewer_rows
    (shorter longer : string) (this : HousingCostMap) :
  Substring (trim (toLowerCase shorter)) (trim (toLowerCase longer)) ->
  forall item : Row,
    In item (snd (_filterTable longer this)) ->
    In item (snd (_filterTable shorter this)).
Proof.
  intros Hsub item. unfold _filterTable. cbn [snd].
  rewrite !filter_In, !filter_matches_spec.
  intros [Hin [Hp | Hs]]; (split; [exact Hin |]).
  - left. exact (Substring_trans _ _ _ Hsub Hp).
  - right. exact (Substring_trans _ _ _ Hsub Hs).
Qed.

Lemma longer_query_renders_fewer_rows_witness :
  Substring (trim (toLowerCase "Syd")) (trim (toLowerCase "Sydney ")) /\
  In row_with_infinite_ratio (snd (_filterTable "Sydney " sydney_table)) /\
  In row_with_infinite_ratio (snd (_filterTable "Syd" sydney_table)).
Proof.
  assert (Hsub : Substring (trim (toLowerCase "Syd"))
                   (trim (toLowerCase "Sydney ")))
    by (apply includes_spec; reflexivity).
  assert (Hin : In row_with_infinite_ratio
                  (snd (_filterTable "Sydney " sydney_table)))
    by (left; reflexivity).
  split; [exact Hsub |]. split; [exact Hin |].
  apply (longer_query_renders_fewer_rows "Syd" "Sydney " sydney_table Hsub
           row_with_infinite_ratio Hin).
Defined.

(** ** Clicking a column header *)

Section HeaderClicks.

Variable localeCompare : string -> string -> R.
Variable StringToNumber : string -> number.

Local Abbreviation click := (_sortColumn localeCompare StringToNumber).

(** The rows a click renders, by the flag the header carried. *)
Lemma click_renders (key : string) (this : HousingCostMap) :
  snd (click key this)
  = Array_sort
      (by_column localeCompare StringToNumber key
         (if sorted_asc (headers this) key then -1 else 1))
      (sortedDataList this).
Proof. reflexivity. Qed.

Lemma click_flips_the_flag (key : string) (this : HousingCostMap) :
  sorted_asc (headers (fst (click key this))) key
  = negb (sorted_asc (headers this) key).
Proof.
  unfold _sortColumn. cbn. now rewrite String.eqb_refl.
Qed.

Lemma refresh_keeps_the_flag (key : string) (this : HousingCostMap) :
  sorted_asc (headers (fst (_prepareAndRenderTable this))) key
  = sorted_asc (headers this) key.
Proof. reflexivity. Qed.

(** The order of the defined values after a sort of a numeric column. *)
Lemma numeric_column_order (key : string) (direction : R) (l : list Row)
    (a b : Row) :
  key <> "postcode" -> key <> "suburb" ->
  direction = 1 \/ direction = -1 ->
  precedes
    (Array_sort (by_column localeCompare StringToNumber key direction) l) a b ->
  (null_in key a = true -> null_in key b = true) /\
  (null_in key a = false -> null_in key b = false ->
   in_direction direction (column_value key a) (column_value key b)).
Proof.
  intros Hp Hs Hdir Hab.
  exact (StronglySorted_precedes _ _ a b
           (column_sort_numeric_order localeCompare StringToNumber key direction
              l Hp Hs Hdir) Hab).
Qed.

(** X17.  Clicking the header of a numeric column that does not carry
    [sorted-asc] sorts the table in ascending order of that column, and a
    second click sorts it in descending order, rows without a value last
    both times.  A table refresh between the two clicks does not reset the
    header: the click after the refresh still sorts in descending order. *)
Theorem header_clicks_alternate_the_order
    (key : string) (this : HousingCostMap) :
  key <> "postcode" -> key <> "suburb" ->
  sorted_asc (headers this) key = false ->
  let once := click key this in
  let twice := click key (fst once) in
  let after_refresh := click key (fst (_prepareAndRenderTable (fst once))) in
  let ascending (rows : list Row) :=
    forall a b : Row,
      precedes rows a b ->
      (null_in key a = true -> null_in key b = true) /\
      (null_in key a = false -> null_in key b = false ->
       value_ge (column_value key b) (column_value key a)) in
  let descending (rows : list Row) :=
    forall a b : Row,
      precedes rows a b ->
      (null_in key a = true -> null_in key b = true) /\
      (null_in key a = false -> null_in key b = false ->
       value_ge (column_value key a) (column_value key b)) in
  ascending (snd once) /\ descending (snd twice) /\
  descending (snd after_refresh) /\
  Permutation (sortedDataList this) (snd twice).
Proof.
  intros Hp Hs Hflag. cbv zeta.
  assert (Hup : forall (l : list Row) (a b : Row),
             precedes
               (Array_sort (by_column localeCompare StringToNumber key 1) l)
               a b ->
             (null_in key a = true -> null_in key b = true) /\
             (null_in key a = false -> null_in key b = false ->
              value_ge (column_value key b) (column_value key a))).
  { intros l a b Hab.
    destruct (numeric_column_order key 1 l a b Hp Hs (or_introl eq_refl) Hab)
      as [Hnull Horder].
    split; [exact Hnull |]. intros Ha Hb. specialize (Horder Ha Hb).
    unfold in_direction in Horder. now rewrite Rlt_bool_true in Horder by lra. }
  assert (Hdown : forall (l : list Row) (a b : Row),
             precedes
               (Array_sort (by_column localeCompare StringToNumber key (-1)) l)
               a b ->
             (null_in key a = true -> null_in key b = true) /\
             (null_in key a = false -> null_in key b = false ->
              value_ge (column_value key a) (column_value key b))).
  { intros l a b Hab.
    destruct (numeric_column_order key (-1) l a b Hp Hs (or_intror eq_refl) Hab)
      as [Hnull Horder].
    split; [exact Hnull |]. intros Ha Hb. specialize (Horder Ha Hb).
    unfold in_direction in Horder. now rewrite Rlt_bool_false in Horder by lra. }
  assert (Hflag1 : sorted_asc (headers (fst (click key this))) key = true)
    by (rewrite click_flips_the_flag, Hflag; reflexivity).
  split; [| split; [| split]].
  - intros a b. rewrite click_renders, Hflag. apply Hup.
  - intros a b. rewrite click_renders, Hflag1. apply Hdown.
  - intros a b. rewrite click_renders, refresh_keeps_the_flag, Hflag1.
    apply Hdown.
  - rewrite !click_renders.
    eapply perm_trans; [| apply Array_sort_Permutation].
    unfold _sortColumn. cbn [fst sortedDataList set_sortedDataList].
    apply Array_sort_Permutation.
Qed.

End HeaderClicks.

Lemma header_clicks_alternate_the_order_witness :
  "rent" <> "postcode" /\ "rent" <> "suburb" /\
  sorted_asc (headers sydney_table) "rent" = false /\
  Permutation (sortedDataList sydney_table)
    (snd (_sortColumn (fun _ _ => 0) (fun _ => NaN) "rent"
            (fst (_sortColumn (fun _ _ => 0) (fun _ => NaN) "rent"
                    sydney_table)))).
Proof.
  split; [discriminate |]. split; [discriminate |]. split; [reflexivity |].
  apply (header_clicks_alternate_the_order (fun _ _ => 0) (fun _ => NaN)
           "rent" sydney_table); [discriminate | discriminate | reflexivity].
Defined.

(** ** Searching for what a row shows *)

Lemma includes_refl (s : string) : includes s s = true.
Proof.
  apply includes_spec. exists EmptyString, EmptyString. simpl.
  induction s as [| c s IH]; simpl; [reflexivity | now rewrite <- IH].
Qed.

Lemma lower_ascii_white_space (c : ascii) :
  is_white_space (lower_ascii c) = is_white_space c.
Proof.
  unfold lower_ascii. cbv zeta.
  destruct ((65 <=? nat_of_ascii c) && (nat_of_ascii c <=? 90))%nat eqn:Hup;
    [| reflexivity].
  apply andb_true_iff in Hup as [H1 H2]. apply Nat.leb_le in H1, H2.
  unfold is_white_space. cbv zeta.
  rewrite nat_ascii_embedding by lia.
  repeat match goal with
         | |- context [(?a <=? ?b)%nat] =>
             destruct (Nat.leb_spec a b); try lia
         | |- context [(?a =? ?b)%nat] =>
             destruct (Nat.eqb_spec a b); try lia
         end; reflexivity.
Qed.

Lemma trimStart_toLowerCase (s : string) :
  trimStart (toLowerCase s) = toLowerCase (trimStart s).
Proof.
  induction s as [| c s IH]; [reflexivity |].
  cbn [toLowerCase trimStart]. rewrite lower_ascii_white_space.
  destruct (is_white_space c); [exact IH | reflexivity].
Qed.

Lemma toLowerCase_empty (s : string) :
  String.eqb (toLowerCase s) EmptyString = String.eqb s EmptyString.
Proof. destruct s; reflexivity. Qed.

Lemma trimEnd_toLowerCase (s : string) :
  trimEnd (toLowerCase s) = toLowerCase (trimEnd s).
Proof.
  induction s as [| c s IH]; [reflexivity |].
  cbn [toLowerCase trimEnd]. cbv zeta.
  rewrite lower_ascii_white_space, IH, toLowerCase_empty.
  destruct (is_white_space c && String.eqb (trimEnd s) EmptyString);
    reflexivity.
Qed.

(** Trimming and lower-casing commute. *)
Lemma trim_toLowerCase (s : string) :
  trim (toLowerCase s) = toLowerCase (trim s).
Proof.
  unfold trim. now rewrite trimStart_toLowerCase, trimEnd_toLowerCase.
Qed.

(** X18.  Searching for what a row shows finds the row: a stored row is
    rendered when the query is its label, in any mix of upper and lower
    case, provided the label has no white space at its ends; and it is
    rendered when the query is its postal code, provided the code has no
    white space at its ends and no capital letters. *)
Theorem searching_for_a_row_finds_it
    (query : string) (item : Row) (this : HousingCostMap) :
  In item (sortedDataList this) ->
  (toLowerCase query = toLowerCase (suburb item) /\
   trim (suburb item) = suburb item) \/
  (query = postcode item /\
   trim (toLowerCase (postcode item)) = postcode item) ->
  In item (snd (_filterTable query this)).
Proof.
  intros Hin Hquery. unfold _filterTable. cbn [snd].
  apply filter_In. split; [exact Hin |].
  unfold filter_matches. apply orb_true_iff.
  destruct Hquery as [[Hlabel Htrim] | [-> Hcode]].
  - right. rewrite Hlabel, trim_toLowerCase, Htrim. apply includes_refl.
  - left. rewrite Hcode. apply includes_refl.
Qed.

Lemma searching_for_a_row_finds_it_witness :
  In row_with_infinite_ratio (sortedDataList sydney_table) /\
  toLowerCase "SYDNEY" = toLowerCase (suburb row_with_infinite_ratio) /\
  trim (suburb row_with_infinite_ratio) = suburb row_with_infinite_ratio /\
  In row_with_infinite_ratio (snd (_filterTable "SYDNEY" sydney_table)).
Proof.
  assert (Hin : In row_with_infinite_ratio (sortedDataList sydney_table))
    by (left; reflexivity).
  split; [exact Hin |]. split; [reflexivity |]. split; [reflexivity |].
  apply (searching_for_a_row_finds_it "SYDNEY" row_with_infinite_ratio
           sydney_table Hin).
  left. split; reflexivity.
Defined.

(** ** Ties in the default order *)

(** A row with the key of [z] is never moved past another row with that
    key. *)
Lemma same_ratio_key_not_passed (z x y : Row) :
  sorts_after by_ratio_descending x y = true ->
  same_ratio_key z x = true -> same_ratio_key z y = false.
Proof.
  unfold same_ratio_key. intros Hxy Hzx.
  apply andb_true_iff in Hzx as [Hzx Hxz].
  apply negb_true_iff in Hzx, Hxz.
  apply andb_false_iff.
  destruct (sorts_after by_ratio_descending z y) eqn:Hzy;
    [left; reflexivity |].
  exfalso.
  pose proof (by_ratio_descending_trans x z y Hxz Hzy) as H.
  congruence.
Qed.

Lemma filter_same_key_insert (z x : Row) (l : list Row) :
  filter (same_ratio_key z) (insert by_ratio_descending x l)
  = if same_ratio_key z x
    then x :: filter (same_ratio_key z) l
    else filter (same_ratio_key z) l.
Proof.
  induction l as [| y l IH]; cbn [insert filter].
  - destruct (same_ratio_key z x); reflexivity.
  - destruct (sorts_after by_ratio_descending x y) eqn:Hxy; cbn [filter].
    + rewrite IH.
      destruct (same_ratio_key z x) eqn:Hzx.
      * now rewrite (same_ratio_key_not_passed z x y Hxy Hzx).
      * reflexivity.
    + destruct (same_ratio_key z x); reflexivity.
Qed.

Lemma filter_same_key_sort (z : Row) (l : list Row) :
  filter (same_ratio_key z) (Array_sort by_ratio_descending l)
  = filter (same_ratio_key z) l.
Proof.
  induction l as [| x l IH]; cbn [Array_sort filter]; [reflexivity |].
  rewrite filter_same_key_insert, IH. reflexivity.
Qed.

(** X19.  The default order is stable: the rows that share a sort key
    (the same ratio, or no ratio at all) stand in the table in the order of
    their records in [housingData]. *)
Theorem default_order_keeps_ties_in_data_order (this : HousingCostMap) :
  let rows := snd (_prepareAndRenderTable this) in
  let projected :=
    map (table_row this) (filter (has_table_row this) (housingData this)) in
  (forall z : Row,
      filter (same_ratio_key z) rows = filter (same_ratio_key z) projected) /\
  filter (fun row => loosely_null (ratio row)) rows
  = filter (fun row => loosely_null (ratio row)) projected.
Proof.
  cbv zeta. unfold _prepareAndRenderTable. cbn [snd].
  split; [intros z; apply filter_same_key_sort |].
  assert (Hkey : forall row : Row,
             loosely_null (ratio row) = true ->
             same_ratio_key row_without_ratio row = true).
  { intros row Hnull.
    unfold same_ratio_key, sorts_after, by_ratio_descending, ratio_key,
      nullish_coalesce.
    rewrite Hnull. cbn. rewrite Rlt_bool_false by lra. reflexivity. }
  assert (Hsub : forall l : list Row,
             filter (fun row => loosely_null (ratio row)) l
             = filter (fun row => loosely_null (ratio row))
                 (filter (same_ratio_key row_without_ratio) l)).
  { induction l as [| row l IH]; cbn [filter]; [reflexivity |].
    destruct (loosely_null (ratio row)) eqn:Hnull.
    - rewrite (Hkey row Hnull). cbn [filter]. now rewrite Hnull, IH.
    - destruct (same_ratio_key row_without_ratio row); cbn [filter];
        [rewrite Hnull |]; exact IH. }
  rewrite Hsub, filter_same_key_sort, <- Hsub. reflexivity.
Qed.

(** ** The box plots of the popup *)

(** X20.  For a record as loaded (no computed property set yet), the
    popup draws the mortgage box plot after a recompute exactly when the
    median, first-quartile and third-quartile sale prices are all present
    and non-zero; otherwise it shows that range data is not available.
    The rent box plot is drawn exactly when the three rent cells are
    present, a rent of zero included. *)
Theorem mortgage_box_plot_needs_all_three_prices
    (inputs : Controls) (deposit_type mortgage_type : string)
    (data : AreaRecord) :
  computed_fields data
  = (Undefined, Undefined, Undefined, Undefined, Undefined) ->
  let data' := _updateAllRatios_area inputs deposit_type mortgage_type data in
  mortgage_box_plot_is_drawn data'
  = cell_truthy (yearly_median_sales_price_000s data) &&
    cell_truthy (yearly_first_quartile_sales_000s data) &&
    cell_truthy (yearly_third_quartile_sales_000s data) /\
  (rent_box_plot_is_drawn data' = true <->
   exists q1 median q3 : R,
     yearly_first_quartile_weekly_rent data = Some q1 /\
     yearly_median_weekly_rent data = Some median /\
     yearly_third_quartile_weekly_rent data = Some q3).
Proof.
  intros Hfresh. cbv zeta. injection Hfresh as Hp Hi Hr H1 H3.
  split.
  - unfold mortgage_box_plot_is_drawn, box_plot_is_drawn.
    destruct (cell_truthy (yearly_median_sales_price_000s data)) eqn:Hm.
    + rewrite pass_first_quartile, pass_weekly_payment, pass_third_quartile
        by exact Hm.
      rewrite H3.
      destruct (cell_truthy (yearly_first_quartile_sales_000s data)),
        (cell_truthy (yearly_third_quartile_sales_000s data)); reflexivity.
    + rewrite pass_skips by exact Hm. now rewrite Hp, H1, H3.
  - unfold rent_box_plot_is_drawn, box_plot_is_drawn.
    destruct (pass_same_raw inputs deposit_type mortgage_type data)
      as (_ & _ & <- & _ & _ & <- & <-).
    destruct (yearly_first_quartile_weekly_rent data) as [a |],
      (yearly_median_weekly_rent data) as [b |],
      (yearly_third_quartile_weekly_rent data) as [c |]; cbn;
      split; intros H; try discriminate H; try reflexivity;
      try (destruct H as (q1 & m & q3 & E1 & E2 & E3); discriminate);
      do 3 eexists; repeat split; reflexivity.
Qed.

Lemma mortgage_box_plot_needs_all_three_prices_witness :
  computed_fields quartile_area
  = (Undefined, Undefined, Undefined, Undefined, Undefined) /\
  mortgage_box_plot_is_drawn
    (_updateAllRatios_area quartile_inputs "percent" "PI" quartile_area)
  = true /\
  mortgage_box_plot_is_drawn
    (_updateAllRatios_area example_inputs "amount" "PI" example_area)
  = false.
Proof.
  split; [reflexivity |]. split.
  - destruct (mortgage_box_plot_needs_all_three_prices quartile_inputs
                "percent" "PI" quartile_area eq_refl) as [-> _].
    cbn [quartile_area fresh_area yearly_median_sales_price_000s
           yearly_first_quartile_sales_000s yearly_third_quartile_sales_000s
           cell_truthy].
    rewrite !truthy_true by lra. reflexivity.
  - destruct (mortgage_box_plot_needs_all_three_prices example_inputs
                "amount" "PI" example_area eq_refl) as [-> _].
    cbn [example_area fresh_area yearly_median_sales_price_000s
           yearly_first_quartile_sales_000s yearly_third_quartile_sales_000s
           cell_truthy].
    now rewrite andb_false_r.
Defined.

(** ** Areas without a suburb name *)

Lemma toLowerCase_app (s t : string) :
  toLowerCase (s ++ t) = toLowerCase s ++ toLowerCase t.
Proof.
  induction s as [| c s IH]; simpl; [reflexivity | now rewrite IH].
Qed.

(** X21.  A record that has no suburb name but a rent or a sale price is
    listed under the label "Postcode " followed by its postal code, and a
    search for "postcode", in any mix of upper and lower case, renders
    its row. *)
Theorem unnamed_areas_are_found_by_the_word_postcode
    (query : string) (this : HousingCostMap) (d : AreaRecord) :
  In d (housingData this) ->
  lookup_suburbs this (Postcode d) = None ->
  has_table_row this d = true ->
  toLowerCase query = "postcode" ->
  let refreshed := fst (_prepareAndRenderTable this) in
  suburb (table_row this d) = "Postcode " ++ Postcode d /\
  In (table_row this d) (sortedDataList refreshed) /\
  In (table_row this d) (snd (_filterTable query refreshed)).
Proof.
  intros Hin Hlookup Hrow Hquery. cbv zeta.
  assert (Hlabel : suburb (table_row this d) = "Postcode " ++ Postcode d)
    by (unfold table_row; cbn [suburb]; now rewrite Hlookup).
  assert (Hstored : In (table_row this d)
                      (sortedDataList (fst (_prepareAndRenderTable this)))).
  { unfold _prepareAndRenderTable.
    cbn [fst sortedDataList set_headers set_sortedDataList].
    eapply Permutation_in; [apply Array_sort_Permutation |].
    apply in_map, filter_In. split; assumption. }
  split; [exact Hlabel |]. split; [exact Hstored |].
  unfold _filterTable. cbn [snd].
  apply filter_In. split; [exact Hstored |].
  unfold filter_matches. apply orb_true_iff. right.
  rewrite Hquery, Hlabel, toLowerCase_app.
  apply includes_spec. exists EmptyString, (" " ++ toLowerCase (Postcode d)).
  reflexivity.
Qed.

Lemma unnamed_areas_are_found_by_the_word_postcode_witness :
  In quartile_area (housingData example_map) /\
  lookup_suburbs example_map (Postcode quartile_area) = None /\
  toLowerCase "PostCode" = "postcode" /\
  In (table_row example_map quartile_area)
    (snd (_filterTable "PostCode" (fst (_prepareAndRenderTable example_map)))).
Proof.
  assert (Hin : In quartile_area (housingData example_map))
    by (right; left; reflexivity).
  split; [exact Hin |]. split; [reflexivity |]. split; [reflexivity |].
  apply (unnamed_areas_are_found_by_the_word_postcode "PostCode" example_map
           quartile_area Hin eq_refl).
  - unfold has_table_row. cbn. rewrite truthy_true by lra. reflexivity.
  - reflexivity.
Defined.
